(** * Standardisation pipeline of [standardise.py]

    A shallow embedding of the class [Standardization] (salt-metal
    stripping, fragment classification, de-duplication, selection and
    final neutralisation) together with the properties its specification
    states about it.

    Python exceptions are modelled by the error monad [exc]; the RDKit
    molecule is a record of an atom list, a bond list and a property bag;
    the library calls the source consumes without defining them
    ([Chem.GetMolFrags], [neutralise], [UpdatePropertyCache], the InChI
    functions, the rendering of a float) are variables of the section
    [Pipeline]. *)

From stdpp Require Import base list strings pretty gmap fin_maps sorting.

(** ** Exceptions *)

Inductive PyExn : Type :=
  | IndexError
  | LibraryError (msg : string).

Inductive exc (A : Type) : Type :=
  | Ok (a : A)
  | Raise (e : PyExn).
Arguments Ok {A} a.
Arguments Raise {A} e.

#[global] Instance exc_ret : MRet exc := λ A a, Ok a.
#[global] Instance exc_bind : MBind exc := λ A B f x,
  match x with
  | Ok a => f a
  | Raise e => Raise e
  end.

(** [l[i]] of Python on a natural index: raises [IndexError] out of range. *)
Definition index {A} (l : list A) (i : nat) : exc A :=
  match l !! i with
  | Some x => Ok x
  | None => Raise IndexError
  end.

(** [l.pop(i)] of Python, the popped value dropped: raises out of range. *)
Definition pop {A} (i : nat) (l : list A) : exc (list A) :=
  if decide (i < length l) then Ok (delete i l) else Raise IndexError.

(** A [for] loop threading one value through a body that may raise. *)
Fixpoint for_each {A S} (body : S → A → exc S) (s : S) (l : list A) : exc S :=
  match l with
  | [] => Ok s
  | x :: l' => s' ← body s x; for_each body s' l'
  end.

(** [enumerate(l)], counting from [i]. *)
Fixpoint enumerate_from {A} (i : nat) (l : list A) : list (nat * A) :=
  match l with
  | [] => []
  | x :: l' => (i, x) :: enumerate_from (S i) l'
  end.
Definition enumerate {A} (l : list A) : list (nat * A) := enumerate_from 0 l.

(** ** Molecular graphs *)

Record Atom : Type := mkAtom {
  GetAtomicNum : Z;
  GetFormalCharge : Z
}.

Record Mol : Type := mkMol {
  GetAtoms : list Atom;          (* the atom with index [i] is at position [i] *)
  GetBonds : list (nat * nat);   (* begin and end atom index of every bond *)
  GetProp : gmap string string   (* [mol.GetProp(name)], by property name *)
}.

Definition incident (i : nat) (b : nat * nat) : bool :=
  bool_decide (b.1 = i) || bool_decide (b.2 = i).

(** [a.GetDegree()] for the atom of index [i]: its number of bonds. *)
Definition GetDegree (mol : Mol) (i : nat) : Z :=
  Z.of_nat (length (filter (λ b, incident i b = true) (GetBonds mol))).

(** [mol.GetNumHeavyAtoms()]: the atoms of atomic number above 1, that is
    all but hydrogens (and dummy atoms, of atomic number 0). *)
Definition GetNumHeavyAtoms (mol : Mol) : Z :=
  Z.of_nat (length (filter (λ a, (1 < GetAtomicNum a)%Z) (GetAtoms mol))).
Arguments GetNumHeavyAtoms : simpl never.

(** [mol.SetProp(prop, value)]: a property of that name is replaced. *)
Definition SetProp (mol : Mol) (prop value : string) : Mol :=
  mkMol (GetAtoms mol) (GetBonds mol) (<[prop := value]> (GetProp mol)).

(** Index of an atom after the atom [idx] has left the molecule. *)
Definition shift_idx (idx j : nat) : nat :=
  if decide (idx < j) then pred j else j.

(** The molecule without its atom [idx]: the atom and its bonds go, the
    atoms behind it move one index down. *)
Definition without_atom (idx : nat) (mol : Mol) : Mol :=
  mkMol (delete idx (GetAtoms mol))
        (prod_map (shift_idx idx) (shift_idx idx) <$>
           filter (λ b, incident idx b = false) (GetBonds mol))
        (GetProp mol).

(** [EditableMol.RemoveAtom(idx)]; an index out of range raises. *)
Definition RemoveAtom (idx : nat) (mol : Mol) : exc Mol :=
  if decide (idx < length (GetAtoms mol)) then Ok (without_atom idx mol)
  else Raise IndexError.

(** ** Classification predicates *)

Definition in_list (x : Z) (l : list Z) : bool := bool_decide (x ∈ l).

Definition is_silane (mol : Mol) : bool :=
  let '(foundCarbon, foundSilicon) :=
    foldl (λ '(foundCarbon, foundSilicon) a,
             let foundSilicon :=
               if (GetAtomicNum a =? 14)%Z then true else foundSilicon in
             let foundCarbon :=
               if (GetAtomicNum a =? 6)%Z then true else foundCarbon in
             (foundCarbon, foundSilicon))
          (false, false) (GetAtoms mol) in
  if foundCarbon && foundSilicon then true else false.

Fixpoint is_inorganic_loop (l : list Atom) : bool :=
  match l with
  | [] => true
  | a :: l' =>
      if (GetAtomicNum a =? 6)%Z then false
      else if (GetAtomicNum a =? 14)%Z then false
      else is_inorganic_loop l'
  end.
Definition is_inorganic (mol : Mol) : bool := is_inorganic_loop (GetAtoms mol).

Definition allowed_atoms : list Z := [1; 6; 7; 8; 9; 14; 15; 16; 17; 35; 53]%Z.

Fixpoint contains_metal_loop (l : list Atom) : bool :=
  match l with
  | [] => false
  | a :: l' =>
      if negb (in_list (GetAtomicNum a) allowed_atoms) then true
      else contains_metal_loop l'
  end.
Definition contains_metal (mol : Mol) : bool := contains_metal_loop (GetAtoms mol).

(** ** Salt-metal stripping *)

Definition salt_metals : list Z := [3; 11; 12; 19; 20]%Z.

(** The first loop of [remove_salt_metals]: the indices to remove. *)
Definition to_remove (mol : Mol) : list nat :=
  foldl (λ to_remove '(idx, a),
           if in_list (GetAtomicNum a) salt_metals then
             if (1 <? GetDegree mol idx)%Z then to_remove
             else to_remove ++ [idx]
           else to_remove)
        [] (enumerate (GetAtoms mol)).

Definition remove_salt_metals (mol : Mol) : exc Mol :=
  match to_remove mol with
  | [] => Ok mol
  | to_remove => for_each (λ mol idx, RemoveAtom idx mol) mol (reverse to_remove)
  end.

(** The atoms [remove_salt_metals] is to remove, as a predicate on an
    index and the atom at it. *)
Definition strippable (mol : Mol) (ia : nat * Atom) : Prop :=
  GetAtomicNum ia.2 ∈ salt_metals ∧ (GetDegree mol ia.1 ≤ 1)%Z.

#[global] Instance strippable_dec mol ia : Decision (strippable mol ia).
Proof. unfold strippable. apply _. Defined.

(** While the atoms [pending] are still to be removed: every other
    salt-metal atom has more than one bond, none of them to a pending atom. *)
Definition settled (mol : Mol) (pending : list nat) : Prop :=
  ∀ j a, GetAtoms mol !! j = Some a → j ∉ pending →
    GetAtomicNum a ∈ salt_metals →
    (1 < GetDegree mol j)%Z ∧
    ∀ b, b ∈ GetBonds mol → incident j b = true →
         (b.1 ∉ pending) ∧ (b.2 ∉ pending).

(** ** Selection of the largest fragment *)

Definition get_largest_component (components : list Mol) : exc Mol :=
  let '(largest_component, num_atoms) :=
    foldl (λ '(largest_component, num_atoms) '(i, comp),
             if (num_atoms <? GetNumHeavyAtoms comp)%Z
             then (i, GetNumHeavyAtoms comp)
             else (largest_component, num_atoms))
          (0, 0%Z) (enumerate components) in
  index components largest_component.

(** What the loop of [get_largest_component] holds after the components
    [cs]: the running size bounds every one of them, strictly those in
    front of the running index, and is the size at that index. *)
Definition largest_so_far (cs : list Mol) (st : nat * Z) : Prop :=
  (∀ j c, cs !! j = Some c → (GetNumHeavyAtoms c ≤ st.2)%Z) ∧
  (∀ j c, j < st.1 → cs !! j = Some c → (GetNumHeavyAtoms c < st.2)%Z) ∧
  (st = (0, 0%Z) ∨ ∃ c, cs !! st.1 = Some c ∧ GetNumHeavyAtoms c = st.2).

(** ** Outcomes *)

Inductive Reason : Type :=
  | NeutralizationFailed
  | OnlyMetalsOrInorganic
  | ContainsMetal
  | Inorganic.

Definition message (r : Reason) : string :=
  match r with
  | NeutralizationFailed => "Molecule could not be neutralised"
  | OnlyMetalsOrInorganic => "Molecule contained only metals or inorganic compounds"
  | ContainsMetal => "Molecule contains metal"
  | Inorganic => "Molecule is inorganic"
  end.

Inductive Outcome : Type :=
  | Success (mol : Mol)
  | Rejected (reason : Reason).

(** The tuple [standardise] returns. *)
Definition as_tuple (o : Outcome) : bool * (Mol + string) :=
  match o with
  | Success mol => (true, inl mol)
  | Rejected r => (false, inr (message r))
  end.

(** ** Python values of properties

    [mol.GetPropsAsDict()] does not return the property strings as they
    are: a string that converts to a C [int] comes back as a Python int,
    one that converts to a double as a Python float, any other as itself.
    A float is carried here by what [str] makes of it. *)

Inductive PyVal : Type :=
  | PyInt (n : Z)
  | PyFloat (rendering : string)
  | PyStr (s : string).

Definition is_digit (c : Ascii.ascii) : bool :=
  (48 <=? Ascii.N_of_ascii c)%N && (Ascii.N_of_ascii c <=? 57)%N.

(** The value of a non-empty run of decimal digits. *)
Definition unsigned_of_digits (l : list Ascii.ascii) : option Z :=
  if bool_decide (l ≠ []) && forallb is_digit l
  then Some (foldl (λ acc c, acc * 10 + (Z.of_N (Ascii.N_of_ascii c) - 48))%Z
                   0%Z l)
  else None.

(** The lexical conversion of a string to a 32-bit [int]: an optional
    sign, then digits only, the value in range. *)
Definition int_of_string (s : string) : option Z :=
  n ← match String.list_ascii_of_string s with
      | c :: l =>
          if (Ascii.N_of_ascii c =? 45)%N          (* "-" *)
          then Z.opp <$> unsigned_of_digits l
          else if (Ascii.N_of_ascii c =? 43)%N     (* "+" *)
          then unsigned_of_digits l
          else unsigned_of_digits (c :: l)
      | [] => None
      end;
  if bool_decide (-2147483648 ≤ n ≤ 2147483647)%Z then Some n else None.

(** [str(value)] of Python. *)
Definition str (value : PyVal) : string :=
  match value with
  | PyInt n => pretty n
  | PyFloat rendering => rendering
  | PyStr s => s
  end.

(** The loop that assigns the saved properties to the chosen component. *)
Definition set_properties (properties : gmap string PyVal) (mol : Mol) : Mol :=
  foldl (λ mol '(prop, value), SetProp mol prop (str value))
        mol (map_to_list properties).

(** ** The pipeline, over its collaborators *)

Section Pipeline.

(** [Chem.GetMolFrags(mol, asMols=True, sanitizeFrags=False)]. *)
Variable GetMolFrags : Mol → list Mol.
(** [standardiser.neutralise.run]; it may raise. *)
Variable neutralise : Mol → exc Mol.
(** [mol.UpdatePropertyCache()]; it may raise. *)
Variable UpdatePropertyCache : Mol → exc ().
(** [Chem.inchi.MolToInchi] and [Chem.inchi.InchiToInchiKey]. *)
Variable MolToInchi : Mol → string.
Variable InchiToInchiKey : string → string.
(** [str(float(s))] of Python, for the strings [s] that convert to a
    double; [None] for the others. *)
Variable float_str : string → option string.

(** What [GetPropsAsDict] makes of a property string. *)
Definition autoconvert (s : string) : PyVal :=
  match int_of_string s with
  | Some n => PyInt n
  | None =>
      match float_str s with
      | Some rendering => PyFloat rendering
      | None => PyStr s
      end
  end.

(** [mol.GetPropsAsDict()]. *)
Definition GetPropsAsDict (mol : Mol) : gmap string PyVal :=
  autoconvert <$> GetProp mol.

(** The dictionary [inchi_keys] keeps insertion order: an association
    list, a new key going to its end. *)
Definition remove_duplicate_components (components : list Mol)
  : exc (list Mol) :=
  inchi_keys ← for_each
    (λ (inchi_keys : list (string * Mol)) comp,
       _ ← UpdatePropertyCache comp;
       comp ← neutralise comp;
       let inchi := MolToInchi comp in
       let inchi_key := InchiToInchiKey inchi in
       if bool_decide (inchi_key ∉ inchi_keys.*1)
       then Ok (inchi_keys ++ [(inchi_key, comp)])
       else Ok inchi_keys)
    [] components;
  Ok (inchi_keys.*2).

(** "flag": the indices of the components on which [p] holds. *)
Definition flag (p : Mol → bool) (components : list Mol) : exc (list nat) :=
  for_each
    (λ frag comp_index,
       comp ← index components comp_index;
       Ok (if p comp then frag ++ [comp_index] else frag))
    [] (seq 0 (length components)).

(** "delete all": reverse the flagged indices and pop each. *)
Definition pop_flagged (frag : list nat) (components : list Mol)
  : exc (list Mol) :=
  match frag with
  | [] => Ok components
  | frag =>
      for_each (λ components comp_index, pop comp_index components)
               components (reverse frag)
  end.

(** The two filtering passes of [standardise], lines 54 to 80. *)
Definition filter_components (components : list Mol) : exc (list Mol) :=
  inorganic_frag ← flag is_inorganic components;
  components ← pop_flagged inorganic_frag components;
  metal_frag ← flag contains_metal components;
  pop_flagged metal_frag components.

(** The closing [try] of [standardise], lines 98 to 104. *)
Definition try_neutralise (mol : Mol) : Outcome :=
  match _ ← UpdatePropertyCache mol; neutralise mol with
  | Ok mol => Success mol
  | Raise _ => Rejected NeutralizationFailed
  end.

(** "choose the remaining component", lines 83 to 88: the component,
    or the early return. *)
Definition choose_component (components : list Mol) : exc (Outcome + Mol) :=
  if decide (1 < length components) then
    mol ← get_largest_component components; Ok (inr mol)
  else if decide (0 < length components) then
    mol ← index components 0; Ok (inr mol)
  else Ok (inl (Rejected OnlyMetalsOrInorganic)).

Definition standardise (mol : Mol) : exc Outcome :=
  mol ← remove_salt_metals mol;
  let components := GetMolFrags mol in
  if decide (1 < length components) then
    let properties := GetPropsAsDict mol in
    match remove_duplicate_components components with
    | Raise _ => Ok (Rejected NeutralizationFailed)
    | Ok components =>
        components ← filter_components components;
        chosen ← choose_component components;
        match chosen with
        | inl rejected => Ok rejected
        | inr mol => Ok (try_neutralise (set_properties properties mol))
        end
    end
  else if contains_metal mol then Ok (Rejected ContainsMetal)
  else if is_inorganic mol then Ok (Rejected Inorganic)
  else Ok (try_neutralise mol).

End Pipeline.

(** ** The specification's wording of the fragment passes *)

(** "neutralizes each fragment": the neutral forms, in order. *)
Fixpoint neutral_forms (UpdatePropertyCache : Mol → exc ())
    (neutralise : Mol → exc Mol) (components : list Mol) : exc (list Mol) :=
  match components with
  | [] => Ok []
  | comp :: rest =>
      _ ← UpdatePropertyCache comp;
      comp ← neutralise comp;
      rest ← neutral_forms UpdatePropertyCache neutralise rest;
      Ok (comp :: rest)
  end.

(** "retain only the first fragment seen per distinct key, preserving
    first-seen order", [seen] being the keys met so far. *)
Fixpoint first_seen (key : Mol → string) (seen : list string)
    (l : list Mol) : list Mol :=
  match l with
  | [] => []
  | x :: l' =>
      if bool_decide (key x ∈ seen) then first_seen key seen l'
      else x :: first_seen key (key x :: seen) l'
  end.

(** The components at the positions outside [flagged]. *)
Definition keep_unflagged (flagged : list nat) (components : list Mol)
  : list Mol :=
  (filter (λ ic, ic.1 ∉ flagged) (enumerate components)).*2.

(** Both flag sets computed against the same list, before any removal. *)
Definition filter_with_flags_of_original (components : list Mol)
  : exc (list Mol) :=
  inorganic_frag ← flag is_inorganic components;
  metal_frag ← flag contains_metal components;
  Ok (keep_unflagged (inorganic_frag ++ metal_frag) components).

(** The two passes in the other order: metals first. *)
Definition filter_metals_first (components : list Mol) : exc (list Mol) :=
  metal_frag ← flag contains_metal components;
  components ← pop_flagged metal_frag components;
  inorganic_frag ← flag is_inorganic components;
  pop_flagged inorganic_frag components.

(** ** A reference instance of the collaborators

    Stand-ins for the library calls, to run the pipeline on concrete
    molecules: fragments are the connected components, ordered by their
    lowest atom index; the neutral form has every formal charge set to
    zero and is refused for a molecule with a dummy atom; the key is a
    rendering of the atoms and bonds. *)

(** The sub-molecule on the atoms [orig] (ascending original indices),
    re-indexed by position in [orig]; it starts with no property. *)
Definition position (orig : list nat) (a : nat) : nat :=
  default 0 (fst <$> list_find (λ x, x = a) orig).

Definition restrict (mol : Mol) (orig : list nat) : Mol :=
  mkMol (omap (λ i, GetAtoms mol !! i) orig)
        (prod_map (position orig) (position orig) <$>
           filter (λ b, b.1 ∈ orig ∧ b.2 ∈ orig) (GetBonds mol))
        ∅.

Definition neighbours (bonds : list (nat * nat)) (i : nat) : list nat :=
  omap (λ b, if decide (b.1 = i) then Some b.2
             else if decide (b.2 = i) then Some b.1 else None) bonds.

Fixpoint reachable (bonds : list (nat * nat)) (fuel : nat) (comp : list nat)
  : list nat :=
  match fuel with
  | 0 => comp
  | S fuel =>
      reachable bonds fuel (remove_dups (comp ++ (comp ≫= neighbours bonds)))
  end.

Definition component_of (mol : Mol) (i : nat) : list nat :=
  let n := length (GetAtoms mol) in
  filter (λ j, j ∈ reachable (GetBonds mol) n [i]) (seq 0 n).

Definition split_fragments (mol : Mol) : list Mol :=
  restrict mol <$>
    foldl (λ comps i,
             if decide (i ∈ mjoin comps) then comps
             else comps ++ [component_of mol i])
          [] (seq 0 (length (GetAtoms mol))).

Definition uncharged (mol : Mol) : exc Mol :=
  if decide (Exists (λ a, (GetAtomicNum a ≤ 0)%Z) (GetAtoms mol))
  then Raise (LibraryError "Sanity_check")
  else Ok (mkMol ((λ a, mkAtom (GetAtomicNum a) 0) <$> GetAtoms mol)
                 (GetBonds mol) (GetProp mol)).

(** No string is taken for a double: enough where no property value is
    written with a point, an exponent, [inf] or [nan]. *)
Definition no_double (s : string) : option string := None.

Definition cache_updated (mol : Mol) : exc () := Ok ().

Definition rendering (mol : Mol) : string :=
  String.concat "," ((λ a, pretty (GetAtomicNum a) +:+ "/" +:+
                           pretty (GetFormalCharge a)) <$> GetAtoms mol)
  +:+ ";" +:+
  String.concat "," ((λ b, pretty b.1 +:+ "-" +:+ pretty b.2) <$> GetBonds mol).

Definition hashed (inchi : string) : string := inchi.

(** ** Example molecules *)

(** Uncharged atoms of the given atomic numbers, without properties. *)
Definition molecule (nums : list Z) (bonds : list (nat * nat)) : Mol :=
  mkMol ((λ z, mkAtom z 0) <$> nums) bonds ∅.

(** An unbranched chain of the given atoms. *)
Definition chain (nums : list Z) : Mol :=
  molecule nums ((λ i, (i, S i)) <$> seq 0 (pred (length nums))).

Definition butane : Mol := chain [6; 6; 6; 6]%Z.
Definition heptane : Mol := chain [6; 6; 6; 6; 6; 6; 6]%Z.
Definition hexanol : Mol := chain [6; 6; 6; 6; 6; 6; 8]%Z.
Definition elemental_iron : Mol := molecule [26]%Z [].
Definition water : Mol := molecule [1; 8; 1]%Z [(0, 1); (1, 2)].
Definition silane : Mol := chain [6; 14; 6]%Z.

(** Acetic acid, and acetate with its charged oxygen. *)
Definition acetic_acid : Mol := molecule [6; 6; 8; 8]%Z [(0, 1); (1, 2); (1, 3)].
Definition acetate : Mol :=
  mkMol [mkAtom 6 0; mkAtom 6 0; mkAtom 8 0; mkAtom 8 (-1)]
        [(0, 1); (1, 2); (1, 3)] ∅.

(** Sodium acetate drawn with the Na-O bond, beside a methane. *)
Definition sodium_acetate_and_methane : Mol :=
  mkMol [mkAtom 6 0; mkAtom 6 0; mkAtom 8 0; mkAtom 8 0; mkAtom 11 0; mkAtom 6 0]
        [(0, 1); (1, 2); (1, 3); (3, 4)] {[ "ID" := "42" ]}.

(** The same, its identifier written with leading zeros. *)
Definition zero_padded_mixture : Mol :=
  mkMol [mkAtom 6 0; mkAtom 6 0; mkAtom 8 0; mkAtom 8 0; mkAtom 11 0; mkAtom 6 0]
        [(0, 1); (1, 2); (1, 3); (3, 4)] {[ "ID" := "007" ]}.

(** Cl-Mg-Na: a magnesium between a chlorine and a sodium. *)
Definition chloromagnesium_sodium : Mol := chain [17; 12; 11]%Z.

(** Cl-Mg-Cl beside a free sodium. *)
Definition magnesium_chloride_and_sodium : Mol :=
  molecule [17; 12; 17; 11]%Z [(0, 1); (1, 2)].

(** A methane beside a dummy atom, which the reference neutraliser refuses. *)
Definition methane_and_dummy : Mol := molecule [6; 0]%Z [].

(** ** Well-formed bonds, and further example molecules *)

(** Every bond joins two different atoms of the molecule. *)
Definition wf_bonds (mol : Mol) : Prop :=
  ∀ b, b ∈ GetBonds mol →
    b.1 < length (GetAtoms mol) ∧ b.2 < length (GetAtoms mol) ∧ b.1 ≠ b.2.

Definition empty_molecule : Mol := molecule [] [].
Definition dimethylmagnesium : Mol := chain [6; 12; 6]%Z.
Definition two_waters : Mol :=
  molecule [1; 8; 1; 1; 8; 1]%Z [(0, 1); (1, 2); (3, 4); (4, 5)].
Definition iron_and_water : Mol :=
  molecule [26; 1; 8; 1]%Z [(1, 2); (2, 3)].
Definition methane : Mol := molecule [6]%Z [].

(** Sodium acetate drawn with the Na-O bond, with one property. *)
Definition sodium_acetate : Mol :=
  mkMol [mkAtom 6 0; mkAtom 6 0; mkAtom 8 0; mkAtom 8 0; mkAtom 11 0]
        [(0, 1); (1, 2); (1, 3); (3, 4)] {[ "ID" := "7" ]}.

(** Butane beside a chloride ion, with one property. *)
Definition butane_and_chloride : Mol :=
  mkMol [mkAtom 6 0; mkAtom 6 0; mkAtom 6 0; mkAtom 6 0; mkAtom 17 (-1)]
        [(0, 1); (1, 2); (2, 3)] {[ "ID" := "9" ]}.


(** * Properties *)

(** ** Loops over enumerated lists *)

Lemma enumerate_from_app {A} (l k : list A) i :
  enumerate_from i (l ++ k) = enumerate_from i l ++ enumerate_from (i + length l) k.
Proof.
  revert i; induction l as [|x l IH]; intros i; simpl.
  - by rewrite Nat.add_0_r.
  - rewrite IH. do 3 f_equal. lia.
Qed.

Lemma enumerate_from_fst {A} (l : list A) i :
  (enumerate_from i l).*1 = seq i (length l).
Proof. revert i; induction l as [|x l IH]; intros i; simpl; [done|by rewrite IH]. Qed.

Lemma enumerate_from_snd {A} (l : list A) i : (enumerate_from i l).*2 = l.
Proof. revert i; induction l as [|x l IH]; intros i; simpl; [done|by rewrite IH]. Qed.

Lemma enumerate_from_lookup {A} (l : list A) i j x :
  (j, x) ∈ enumerate_from i l ↔ i ≤ j ∧ l !! (j - i) = Some x.
Proof.
  revert i; induction l as [|y l IH]; intros i; simpl.
  - rewrite elem_of_nil. split; [done|by intros [_ ?]].
  - rewrite elem_of_cons, IH. split.
    + intros [[= -> ->]|[Hle Hl]].
      * by rewrite Nat.sub_diag.
      * split; [lia|]. by replace (j - i) with (S (j - S i)) by lia.
    + intros [Hle Hl]. destruct (decide (j = i)) as [->|Hne].
      * rewrite Nat.sub_diag in Hl. left. simpl in Hl. congruence.
      * right. split; [lia|].
        by replace (j - i) with (S (j - S i)) in Hl by lia.
Qed.

Lemma enumerate_lookup {A} (l : list A) j x :
  (j, x) ∈ enumerate l ↔ l !! j = Some x.
Proof.
  unfold enumerate. rewrite enumerate_from_lookup, Nat.sub_0_r.
  intuition lia.
Qed.

(** ** is_silane *)

Lemma is_silane_loop (l : list Atom) (c s : bool) :
  foldl (λ '(foundCarbon, foundSilicon) a,
           let foundSilicon :=
             if (GetAtomicNum a =? 14)%Z then true else foundSilicon in
           let foundCarbon :=
             if (GetAtomicNum a =? 6)%Z then true else foundCarbon in
           (foundCarbon, foundSilicon)) (c, s) l
  = (c || bool_decide (Exists (λ a, GetAtomicNum a = 6%Z) l),
     s || bool_decide (Exists (λ a, GetAtomicNum a = 14%Z) l)).
Proof.
  revert c s; induction l as [|a l IH]; intros c s; simpl.
  - by rewrite !orb_false_r.
  - rewrite IH. f_equal.
    + destruct (Z.eqb_spec (GetAtomicNum a) 6) as [E|E].
      * rewrite (bool_decide_eq_true_2 (Exists _ (a :: l))) by (by left).
        by rewrite orb_true_r.
      * f_equal. apply bool_decide_ext. rewrite Exists_cons. tauto.
    + destruct (Z.eqb_spec (GetAtomicNum a) 14) as [E|E].
      * rewrite (bool_decide_eq_true_2 (Exists _ (a :: l))) by (by left).
        by rewrite orb_true_r.
      * f_equal. apply bool_decide_ext. rewrite Exists_cons. tauto.
Qed.

(** C9. [is_silane] answers true exactly for the fragments that hold at
    least one carbon atom (atomic number 6) and at least one silicon atom
    (atomic number 14); with carbon only, silicon only or neither, the
    answer is false. *)
Theorem is_silane_carbon_and_silicon (mol : Mol) :
  (is_silane mol = true ↔
     (∃ a, a ∈ GetAtoms mol ∧ GetAtomicNum a = 6%Z) ∧
     (∃ a, a ∈ GetAtoms mol ∧ GetAtomicNum a = 14%Z)) ∧
  (is_silane mol = false ↔
     (∀ a, a ∈ GetAtoms mol → GetAtomicNum a ≠ 6%Z) ∨
     (∀ a, a ∈ GetAtoms mol → GetAtomicNum a ≠ 14%Z)).
Proof.
  assert (Hiff : is_silane mol = true ↔
     (∃ a, a ∈ GetAtoms mol ∧ GetAtomicNum a = 6%Z) ∧
     (∃ a, a ∈ GetAtoms mol ∧ GetAtomicNum a = 14%Z)).
  { unfold is_silane. rewrite is_silane_loop. simpl.
    rewrite <- !Exists_exists.
    destruct (bool_decide_reflect (Exists (λ a, GetAtomicNum a = 6%Z) (GetAtoms mol)));
      destruct (bool_decide_reflect (Exists (λ a, GetAtomicNum a = 14%Z) (GetAtoms mol)));
      simpl; intuition congruence. }
  split; [done|].
  rewrite <- not_true_iff_false, Hiff. split.
  - intros Hn.
    destruct (decide (Exists (λ a, GetAtomicNum a = 6%Z) (GetAtoms mol))) as [Hc|Hc].
    + right. intros a Ha E. apply Hn. split.
      * by apply Exists_exists.
      * eauto.
    + left. intros a Ha E. apply Hc, Exists_exists. eauto.
  - intros [H|H] [(a & Ha & E) (b & Hb & E')]; [by apply (H a)|by apply (H b)].
Qed.

Lemma is_silane_carbon_and_silicon_witness :
  is_silane silane = true ∧ is_silane butane = false.
Proof.
  split.
  - apply (proj1 (is_silane_carbon_and_silicon silane)). split.
    + exists (mkAtom 6 0). split; [by left|done].
    + exists (mkAtom 14 0). split; [by right; left|done].
  - apply (proj2 (is_silane_carbon_and_silicon butane)). right.
    intros a Ha. simpl in Ha.
    rewrite !elem_of_cons, elem_of_nil in Ha. by destruct Ha as [->|[->|[->|[->|[]]]]].
Defined.

(** ** get_largest_component *)

Lemma GetNumHeavyAtoms_nonneg mol : (0 ≤ GetNumHeavyAtoms mol)%Z.
Proof. unfold GetNumHeavyAtoms. lia. Qed.

Lemma largest_loop_invariant (cs : list Mol) :
  largest_so_far cs
    (foldl (λ '(largest_component, num_atoms) '(i, comp),
              if (num_atoms <? GetNumHeavyAtoms comp)%Z
              then (i, GetNumHeavyAtoms comp)
              else (largest_component, num_atoms))
           (0, 0%Z) (enumerate cs)).
Proof.
  induction cs as [|x cs IH] using rev_ind.
  - repeat split; simpl; intros; try done. by left.
  - unfold enumerate in *. rewrite enumerate_from_app, foldl_app. simpl.
    destruct (foldl _ _ (enumerate_from 0 cs)) as [lc na].
    destruct IH as (Hmax & Hbefore & Hat). simpl in *.
    destruct (Z.ltb_spec na (GetNumHeavyAtoms x)) as [Hlt|Hge].
    + repeat split; simpl.
      * intros j c Hj. apply lookup_app_Some in Hj as [Hj|[_ Hj]].
        -- apply Hmax in Hj. lia.
        -- apply list_lookup_singleton_Some in Hj as [_ ->]. lia.
      * intros j c Hlen Hj. rewrite lookup_app_l in Hj by done.
        apply Hmax in Hj. lia.
      * right. exists x. split; [|done].
        by rewrite lookup_app_r, Nat.sub_diag.
    + repeat split; simpl.
      * intros j c Hj. apply lookup_app_Some in Hj as [Hj|[_ Hj]].
        -- by apply Hmax in Hj.
        -- by apply list_lookup_singleton_Some in Hj as [_ ->].
      * intros j c Hlt Hj. apply lookup_app_Some in Hj as [Hj|[Hlen Hj]].
        -- by eapply Hbefore.
        -- destruct Hat as [[= -> ->]|(c' & Hc' & _)]; [lia|].
           apply lookup_lt_Some in Hc'. lia.
      * destruct Hat as [Hat|(c' & Hc' & Hn)]; [by left|right].
        exists c'. split; [|done]. by apply lookup_app_l_Some.
Qed.

(** The running index the loop ends on. *)
Lemma get_largest_component_first_max (cs : list Mol) :
  cs ≠ [] →
  ∃ i mol, cs !! i = Some mol ∧ get_largest_component cs = Ok mol ∧
    (∀ j c, cs !! j = Some c →
            (GetNumHeavyAtoms c ≤ GetNumHeavyAtoms mol)%Z) ∧
    (∀ j c, j < i → cs !! j = Some c →
            (GetNumHeavyAtoms c < GetNumHeavyAtoms mol)%Z).
Proof.
  intros Hne. unfold get_largest_component.
  pose proof (largest_loop_invariant cs) as Hinv.
  destruct (foldl _ _ (enumerate cs)) as [lc na].
  destruct Hinv as (Hmax & Hbefore & Hat). simpl in *.
  destruct Hat as [[= -> ->]|(c & Hc & Hn)].
  - destruct cs as [|x cs]; [done|]. exists 0, x.
    pose proof (Hmax 0 x eq_refl). pose proof (GetNumHeavyAtoms_nonneg x).
    repeat split.
    + intros j c Hj. apply Hmax in Hj. lia.
    + intros; lia.
  - exists lc, c. unfold index. rewrite Hc, Hn. by repeat split.
Qed.

(** ** Removal by descending index *)

Section flagged.
Context {A : Type} (P : nat * A → Prop) `{!∀ x, Decision (P x)}.

Lemma flagged_bounds (l : list A) i j :
  j ∈ (filter P (enumerate_from i l)).*1 → i ≤ j < i + length l.
Proof.
  intros ([j' x] & -> & Hin)%list_elem_of_fmap.
  apply list_elem_of_filter in Hin as [_ Hin].
  apply enumerate_from_lookup in Hin as [Hle Hl].
  apply lookup_lt_Some in Hl. simpl. lia.
Qed.

Lemma flagged_sorted (l : list A) i :
  StronglySorted lt ((filter P (enumerate_from i l)).*1).
Proof.
  revert i; induction l as [|x l IH]; intros i; simpl; [constructor|].
  rewrite filter_cons. destruct (decide (P (i, x))); [|apply IH].
  simpl. apply StronglySorted_cons. split; [|apply IH].
  apply Forall_forall. intros j Hj%flagged_bounds. lia.
Qed.

Lemma foldl_delete_cons (x : A) (l : list A) i js :
  Forall (λ j, S i ≤ j) js →
  foldl (λ l j, delete (j - i) l) (x :: l) js
  = x :: foldl (λ l j, delete (j - S i) l) l js.
Proof.
  revert l; induction js as [|j js IH]; intros l Hjs; [done|].
  apply Forall_cons in Hjs as [Hj Hjs]. simpl.
  replace (j - i) with (S (j - S i)) by lia. simpl. by apply IH.
Qed.

Lemma delete_flagged_desc (l : list A) i :
  foldl (λ l j, delete (j - i) l) l
        (reverse (filter P (enumerate_from i l)).*1)
  = (filter (λ x, ¬ P x) (enumerate_from i l)).*2.
Proof.
  revert i; induction l as [|x l IH]; intros i; [done|]. simpl.
  rewrite !filter_cons.
  assert (Hshift : ∀ js, js = (filter P (enumerate_from (S i) l)).*1 →
    foldl (λ l j, delete (j - i) l) (x :: l) (reverse js)
    = x :: (filter (λ x, ¬ P x) (enumerate_from (S i) l)).*2).
  { intros js ->. rewrite foldl_delete_cons, IH; [done|].
    apply Forall_forall. intros j Hj. rewrite elem_of_reverse in Hj.
    apply flagged_bounds in Hj. lia. }
  destruct (decide (P (i, x))) as [HP|HP].
  - rewrite decide_False by tauto. simpl.
    rewrite reverse_cons, foldl_app, Hshift by done. simpl.
    by rewrite Nat.sub_diag.
  - rewrite decide_True by done. simpl. by apply Hshift.
Qed.

End flagged.

Lemma StronglySorted_reverse_lt (js : list nat) :
  StronglySorted lt js → StronglySorted (flip lt) (reverse js).
Proof.
  induction 1 as [|j js Hs IH Hj]; [constructor|].
  rewrite reverse_cons. apply StronglySorted_app. split_and!.
  - intros j1 j2 Hj1 ->%list_elem_of_singleton.
    rewrite elem_of_reverse in Hj1.
    rewrite Forall_forall in Hj. unfold flip. by apply Hj.
  - done.
  - repeat constructor.
Qed.

(** A step that needs its index in range and shortens its state by one
    never raises along strictly descending indices in range. *)
Section descending.
Context {S : Type} (size : S → nat) (step : nat → S → S).
Hypothesis size_step : ∀ j s, j < size s → size (step j s) = pred (size s).

Lemma for_each_descending (s : S) (js : list nat) :
  StronglySorted (flip lt) js → Forall (λ j, j < size s) js →
  for_each (λ s j, if decide (j < size s) then Ok (step j s)
                   else Raise IndexError) s js
  = Ok (foldl (λ s j, step j s) s js).
Proof.
  intros Hs; revert s; induction Hs as [|j js Hs IH Hj]; intros s Hjs; [done|].
  apply Forall_cons in Hjs as [Hlt Hjs]. simpl.
  rewrite decide_True by done. simpl. apply IH.
  rewrite Forall_forall in *. intros j' Hj'. specialize (Hj _ Hj').
  unfold flip in Hj. rewrite size_step by done. lia.
Qed.

End descending.

Lemma foldl_ext_in {A B} (f g : A → B → A) (a : A) (l : list B) :
  (∀ a x, x ∈ l → f a x = g a x) → foldl f a l = foldl g a l.
Proof.
  revert a; induction l as [|x l IH]; intros a Hfg; [done|]. simpl.
  rewrite Hfg by left. apply IH. intros a' y Hy. apply Hfg. by right.
Qed.

Lemma filter_ext_in {A} (P Q : A → Prop)
    `{!∀ x, Decision (P x), !∀ x, Decision (Q x)} (l : list A) :
  (∀ x, x ∈ l → P x ↔ Q x) → filter P l = filter Q l.
Proof.
  induction l as [|x l IH]; intros HPQ; [done|].
  rewrite !filter_cons, IH by (intros; apply HPQ; by right).
  apply decide_ext, HPQ. by left.
Qed.

Lemma filter_none {A} (P : A → Prop) `{!∀ x, Decision (P x)} (l : list A) :
  (∀ x, x ∈ l → ¬ P x) → filter P l = [].
Proof.
  induction l as [|x l IH]; intros HP; [done|].
  rewrite filter_cons_False by (apply HP; by left).
  apply IH. intros; apply HP; by right.
Qed.

Lemma filter_fmap {A B} (f : A → B) (P : B → Prop) `{!∀ y, Decision (P y)}
    (l : list A) :
  filter P (f <$> l) = f <$> filter (λ x, P (f x)) l.
Proof.
  induction l as [|x l IH]; [done|]. rewrite fmap_cons, !filter_cons, IH.
  by destruct (decide (P (f x))).
Qed.

Lemma filter_enumerate_snd {A} (Q : A → Prop) `{!∀ x, Decision (Q x)}
    (l : list A) i :
  (filter (λ ia, Q ia.2) (enumerate_from i l)).*2 = filter Q l.
Proof.
  revert i; induction l as [|x l IH]; intros i; [done|]. simpl.
  rewrite !filter_cons. simpl. destruct (decide (Q x)); simpl; by rewrite IH.
Qed.

(** Popping the flagged positions of [l], last first, leaves the
    unflagged elements in their order. *)
Lemma pop_flagged_positions {A} (P : nat * A → Prop) `{!∀ x, Decision (P x)}
    (l : list A) :
  for_each (λ l j, pop j l) l (reverse (filter P (enumerate l)).*1)
  = Ok (filter (λ x, ¬ P x) (enumerate l)).*2.
Proof.
  unfold pop, enumerate.
  rewrite (for_each_descending length (λ j l, delete j l)).
  - f_equal. rewrite <- (delete_flagged_desc P l 0).
    apply foldl_ext_in. intros. by rewrite Nat.sub_0_r.
  - intros j s Hj. rewrite length_delete; [lia|]. by apply lookup_lt_is_Some.
  - apply StronglySorted_reverse_lt, flagged_sorted.
  - apply Forall_forall. intros j Hj. rewrite elem_of_reverse in Hj.
    apply flagged_bounds in Hj. lia.
Qed.

(** ** remove_salt_metals *)

Lemma to_remove_loop (mol : Mol) (l : list Atom) (i : nat) (acc : list nat) :
  foldl (λ to_remove '(idx, a),
           if in_list (GetAtomicNum a) salt_metals then
             if (1 <? GetDegree mol idx)%Z then to_remove
             else to_remove ++ [idx]
           else to_remove)
        acc (enumerate_from i l)
  = acc ++ (filter (strippable mol) (enumerate_from i l)).*1.
Proof.
  revert i acc; induction l as [|a l IH]; intros i acc; simpl.
  - by rewrite app_nil_r.
  - rewrite IH, filter_cons. unfold in_list.
    destruct (bool_decide_reflect (GetAtomicNum a ∈ salt_metals)) as [Hin|Hin].
    + destruct (Z.ltb_spec 1 (GetDegree mol i)) as [Hd|Hd].
      * rewrite decide_False by (unfold strippable; simpl; lia). done.
      * rewrite decide_True by (split; simpl; [done|lia]). simpl.
        by rewrite <- app_assoc.
    + rewrite decide_False by (unfold strippable; simpl; tauto). done.
Qed.

Lemma to_remove_strippable (mol : Mol) :
  to_remove mol = (filter (strippable mol) (enumerate (GetAtoms mol))).*1.
Proof. unfold to_remove, enumerate. by rewrite to_remove_loop. Qed.

Lemma to_remove_descending (mol : Mol) :
  StronglySorted (flip lt) (reverse (to_remove mol)) ∧
  Forall (λ idx, idx < length (GetAtoms mol)) (reverse (to_remove mol)).
Proof.
  rewrite to_remove_strippable. split.
  - apply StronglySorted_reverse_lt, flagged_sorted.
  - apply Forall_forall. intros j Hj. rewrite elem_of_reverse in Hj.
    apply flagged_bounds in Hj. lia.
Qed.

(** The atoms go by descending index, so no [RemoveAtom] raises. *)
Lemma remove_salt_metals_steps (mol : Mol) :
  remove_salt_metals mol
  = Ok (foldl (λ mol idx, without_atom idx mol) mol (reverse (to_remove mol))).
Proof.
  unfold remove_salt_metals.
  destruct (to_remove_descending mol) as [Hs Hr].
  destruct (to_remove mol) as [|idx rest] eqn:E; [done|].
  unfold RemoveAtom.
  apply (for_each_descending (λ mol, length (GetAtoms mol))
           (λ idx mol, without_atom idx mol)); [|done..].
  intros j s Hj. simpl. rewrite length_delete; [lia|]. by apply lookup_lt_is_Some.
Qed.

Lemma without_atoms_atoms (mol : Mol) (js : list nat) :
  GetAtoms (foldl (λ mol idx, without_atom idx mol) mol js)
  = foldl (λ l j, delete j l) (GetAtoms mol) js.
Proof. revert mol; induction js as [|j js IH]; intros mol; [done|]. simpl. by rewrite IH. Qed.

Lemma without_atoms_props (mol : Mol) (js : list nat) :
  GetProp (foldl (λ mol idx, without_atom idx mol) mol js)
  = GetProp mol.
Proof. revert mol; induction js as [|j js IH]; intros mol; [done|]. simpl. by rewrite IH. Qed.

Lemma remove_salt_metals_atoms (mol : Mol) :
  ∃ stripped, remove_salt_metals mol = Ok stripped ∧
    GetAtoms stripped
    = (filter (λ ia, ¬ strippable mol ia) (enumerate (GetAtoms mol))).*2 ∧
    GetProp stripped = GetProp mol.
Proof.
  eexists. split; [apply remove_salt_metals_steps|].
  rewrite without_atoms_atoms, without_atoms_props. split; [|done].
  rewrite to_remove_strippable. unfold enumerate.
  rewrite <- (delete_flagged_desc (strippable mol) (GetAtoms mol) 0).
  apply foldl_ext_in. intros. by rewrite Nat.sub_0_r.
Qed.

(** ** The filtering passes *)

Lemma flag_loop (p : Mol → bool) (cs pre l : list Mol) (acc : list nat) :
  cs = pre ++ l →
  for_each
    (λ frag comp_index,
       comp ← index cs comp_index;
       Ok (if p comp then frag ++ [comp_index] else frag))
    acc (seq (length pre) (length l))
  = Ok (acc ++ (filter (λ ic, p ic.2 = true) (enumerate_from (length pre) l)).*1).
Proof.
  revert pre acc; induction l as [|x l IH]; intros pre acc Hcs; simpl.
  - by rewrite app_nil_r.
  - assert (index cs (length pre) = Ok x) as ->.
    { unfold index. by rewrite Hcs, list_lookup_middle. }
    simpl. specialize (IH (pre ++ [x])). rewrite length_app, Nat.add_1_r in IH.
    rewrite IH by (by rewrite <- app_assoc).
    rewrite filter_cons. simpl.
    destruct (p x); simpl; by rewrite <- ?app_assoc.
Qed.

Lemma flag_positions (p : Mol → bool) (cs : list Mol) :
  flag p cs = Ok (filter (λ ic, p ic.2 = true) (enumerate cs)).*1.
Proof. exact (flag_loop p cs [] cs [] eq_refl). Qed.

Lemma pop_flagged_reverse (frag : list nat) (cs : list Mol) :
  pop_flagged frag cs = for_each (λ l j, pop j l) cs (reverse frag).
Proof. by destruct frag. Qed.

(** One pass, flagging then popping, keeps the components off [p]. *)
Lemma filter_pass (p : Mol → bool) (cs : list Mol) :
  (frag ← flag p cs; pop_flagged frag cs) = Ok (filter (λ c, p c = false) cs).
Proof.
  rewrite flag_positions. simpl.
  rewrite pop_flagged_reverse, pop_flagged_positions. f_equal.
  unfold enumerate.
  rewrite <- (filter_enumerate_snd (λ c, p c = false) cs 0). f_equal.
  apply list_filter_iff. intros [i c]. simpl. by destruct (p c).
Qed.

Lemma filter_components_filter (cs : list Mol) :
  filter_components cs
  = Ok (filter (λ c, contains_metal c = false)
          (filter (λ c, is_inorganic c = false) cs)).
Proof.
  unfold filter_components.
  pose proof (filter_pass is_inorganic cs) as H1.
  destruct (flag is_inorganic cs) as [frag|e]; [|done]. simpl in *.
  rewrite H1. simpl. apply filter_pass.
Qed.

(** ** The whole of standardise never raises *)

Lemma choose_component_total (cs : list Mol) :
  ∃ r, choose_component cs = Ok r ∧
    match r with
    | inl o => cs = [] ∧ o = Rejected OnlyMetalsOrInorganic
    | inr mol => mol ∈ cs
    end.
Proof.
  unfold choose_component. destruct (decide (1 < length cs)) as [H1|H1].
  - destruct (get_largest_component_first_max cs) as (i & mol & Hi & -> & _).
    { intros ->. simpl in H1. lia. }
    exists (inr mol). split; [done|]. by eapply list_elem_of_lookup_2.
  - destruct cs as [|x cs]; simpl.
    + by exists (inl (Rejected OnlyMetalsOrInorganic)).
    + exists (inr x). split; [done|]. by left.
Qed.

Section total.
Variable GetMolFrags : Mol → list Mol.
Variable neutralise : Mol → exc Mol.
Variable UpdatePropertyCache : Mol → exc ().
Variable MolToInchi : Mol → string.
Variable InchiToInchiKey : string → string.
Variable float_str : string → option string.

Lemma standardise_total (mol : Mol) :
  ∃ o, standardise GetMolFrags neutralise UpdatePropertyCache
         MolToInchi InchiToInchiKey float_str mol = Ok o.
Proof.
  unfold standardise. rewrite remove_salt_metals_steps. simpl.
  set (stripped := foldl _ mol _).
  destruct (decide (1 < length (GetMolFrags stripped))).
  - destruct (remove_duplicate_components _ _ _ _ _) as [cs|e]; [|by eexists].
    rewrite filter_components_filter. simpl.
    destruct (choose_component_total
      (filter (λ c, contains_metal c = false)
         (filter (λ c, is_inorganic c = false) cs))) as ([o|m] & -> & _);
      simpl; by eexists.
  - destruct (contains_metal stripped); [by eexists|].
    destruct (is_inorganic stripped); by eexists.
Qed.

End total.

(** * The claims *)

(** C1. With more than one fragment left after the filtering passes, the
    fragment selected is one of greatest heavy-atom count, and of these the
    first met: every fragment in front of it is strictly smaller. For
    heavy-atom counts 4, 7, 7 it is the first fragment of count 7. *)
Theorem largest_component_first_of_greatest :
  (∀ components : list Mol, 1 < length components →
     ∃ i mol, components !! i = Some mol ∧
       get_largest_component components = Ok mol ∧
       choose_component components = Ok (inr mol) ∧
       (∀ j c, components !! j = Some c →
               (GetNumHeavyAtoms c ≤ GetNumHeavyAtoms mol)%Z) ∧
       (∀ j c, j < i → components !! j = Some c →
               (GetNumHeavyAtoms c < GetNumHeavyAtoms mol)%Z)) ∧
  (∀ a b c : Mol,
     GetNumHeavyAtoms a = 4%Z → GetNumHeavyAtoms b = 7%Z →
     GetNumHeavyAtoms c = 7%Z →
     get_largest_component [a; b; c] = Ok b ∧
     choose_component [a; b; c] = Ok (inr b)).
Proof.
  split.
  - intros cs Hlen.
    destruct (get_largest_component_first_max cs) as (i & mol & Hi & Hg & Hmax & Hfirst).
    { intros ->. simpl in Hlen. lia. }
    exists i, mol. split_and!; try done.
    unfold choose_component. rewrite decide_True by done. by rewrite Hg.
  - intros a b c Ha Hb Hc.
    assert (get_largest_component [a; b; c] = Ok b) as Hg.
    { unfold get_largest_component. simpl.
      rewrite Ha; simpl. rewrite Hb; simpl. by rewrite Hc. }
    split; [done|]. unfold choose_component. simpl. by rewrite Hg.
Qed.

Lemma largest_component_first_of_greatest_witness :
  get_largest_component [butane; heptane; hexanol] = Ok heptane ∧
  choose_component [butane; heptane; hexanol] = Ok (inr heptane).
Proof.
  apply (proj2 largest_component_first_of_greatest butane heptane hexanol);
    reflexivity.
Defined.

(** C10. On a non-empty list [get_largest_component] indexes in bounds
    and returns an element of the list; its index error on the empty list
    is not reached from the selection step, which calls it only for more
    than one component and never raises, and so [standardise] never
    raises either. *)
Theorem get_largest_component_in_bounds :
  (∀ components : list Mol, components ≠ [] →
     ∃ i mol, i < length components ∧ components !! i = Some mol ∧
       get_largest_component components = Ok mol ∧ mol ∈ components) ∧
  get_largest_component [] = Raise IndexError ∧
  (∀ components : list Mol, ¬ 1 < length components →
     choose_component components
     = match components with
       | [] => Ok (inl (Rejected OnlyMetalsOrInorganic))
       | mol :: _ => Ok (inr mol)
       end) ∧
  (∀ components : list Mol, ∃ r, choose_component components = Ok r) ∧
  (∀ GetMolFrags neutralise UpdatePropertyCache MolToInchi InchiToInchiKey
     float_str mol,
     ∃ o, standardise GetMolFrags neutralise UpdatePropertyCache
            MolToInchi InchiToInchiKey float_str mol = Ok o).
Proof.
  split_and!.
  - intros cs Hne.
    destruct (get_largest_component_first_max cs Hne) as (i & mol & Hi & Hg & _).
    exists i, mol. split_and!; try done.
    + by eapply lookup_lt_Some.
    + by eapply list_elem_of_lookup_2.
  - done.
  - intros cs Hlen. unfold choose_component. rewrite decide_False by done.
    by destruct cs.
  - intros cs. destruct (choose_component_total cs) as (r & Hr & _). eauto.
  - apply standardise_total.
Qed.

Lemma get_largest_component_in_bounds_witness :
  ∃ i mol, i < 2 ∧ [water; butane] !! i = Some mol ∧
    get_largest_component [water; butane] = Ok mol ∧ mol ∈ [water; butane].
Proof.
  apply (proj1 get_largest_component_in_bounds [water; butane]). discriminate.
Defined.

(** C2. [remove_salt_metals] never raises and removes exactly the atoms
    whose atomic number is one of 3, 11, 12, 19, 20 and whose degree is at
    most 1: these indices are what the first loop collects, they are then
    removed one by one in strictly descending order, and when no atom
    matches, the molecule itself is returned. *)
Theorem remove_salt_metals_exact (mol : Mol) :
  ∃ stripped, remove_salt_metals mol = Ok stripped ∧
    (∀ idx, idx ∈ to_remove mol ↔
       ∃ a, GetAtoms mol !! idx = Some a ∧
            GetAtomicNum a ∈ [3; 11; 12; 19; 20]%Z ∧
            (GetDegree mol idx ≤ 1)%Z) ∧
    StronglySorted (λ idx idx', idx' < idx) (reverse (to_remove mol)) ∧
    stripped
    = foldl (λ mol idx, without_atom idx mol) mol (reverse (to_remove mol)) ∧
    GetAtoms stripped
    = (filter (λ ia, ¬ strippable mol ia) (enumerate (GetAtoms mol))).*2 ∧
    ((∀ idx a, GetAtoms mol !! idx = Some a → ¬ strippable mol (idx, a)) →
     stripped = mol).
Proof.
  destruct (remove_salt_metals_atoms mol) as (stripped & Hs & Hatoms & _).
  exists stripped. split_and!; try done.
  - intros idx. rewrite to_remove_strippable, list_elem_of_fmap. split.
    + intros ([i a] & -> & Hin). apply list_elem_of_filter in Hin as [[Hn Hd] Hin].
      apply enumerate_lookup in Hin. by exists a.
    + intros (a & Ha & Hn & Hd). exists (idx, a). split; [done|].
      apply list_elem_of_filter. split; [done|]. by apply enumerate_lookup.
  - apply (to_remove_descending mol).
  - rewrite remove_salt_metals_steps in Hs. by injection Hs as <-.
  - intros Hnone. unfold remove_salt_metals in Hs.
    assert (to_remove mol = []) as E; [|rewrite E in Hs; by injection Hs as <-].
    rewrite to_remove_strippable.
    assert (filter (strippable mol) (enumerate (GetAtoms mol)) = []) as ->; [|done].
    apply filter_none. intros [i a] Hin%enumerate_lookup. by apply Hnone.
Qed.

Lemma remove_salt_metals_exact_witness :
  ∃ stripped, remove_salt_metals water = Ok stripped ∧ stripped = water.
Proof.
  destruct (remove_salt_metals_exact water)
    as (stripped & Hs & _ & _ & _ & _ & Hsame).
  exists stripped. split; [exact Hs|]. apply Hsame.
  intros idx a Ha [Hnum _].
  destruct idx as [|[|[|idx]]]; simpl in Ha; [..|discriminate];
    injection Ha as <-; revert Hnum; apply (bool_decide_eq_false_1 _);
    reflexivity.
Defined.

(** C7. The two filtering passes leave the fragments that are neither
    inorganic nor metal-containing, in their order; the result is the same
    when both flag sets are taken from the list before any removal, and
    when the metal pass runs before the inorganic pass. *)
Theorem filter_order_irrelevant (components : list Mol) :
  let survivors :=
    filter (λ c, is_inorganic c = false ∧ contains_metal c = false) components in
  filter_components components = Ok survivors ∧
  filter_with_flags_of_original components = Ok survivors ∧
  filter_metals_first components = Ok survivors.
Proof.
  intros survivors. subst survivors. split_and!.
  - rewrite filter_components_filter, list_filter_filter. f_equal.
    apply list_filter_iff. tauto.
  - unfold filter_with_flags_of_original. rewrite !flag_positions. simpl.
    f_equal. unfold keep_unflagged, enumerate.
    rewrite <- (filter_enumerate_snd
      (λ c, is_inorganic c = false ∧ contains_metal c = false) components 0).
    f_equal. apply filter_ext_in. intros [i c] Hin. simpl.
    rewrite not_elem_of_app, !list_elem_of_fmap.
    apply enumerate_lookup in Hin.
    assert (Hflag : ∀ p : Mol → bool,
      (∃ y : nat * Mol, i = y.1 ∧
         y ∈ filter (λ ic, p ic.2 = true) (enumerate_from 0 components))
      ↔ p c = true).
    { intros p. split.
      - intros ([i' c'] & -> & [Hp Hin']%list_elem_of_filter).
        apply enumerate_lookup in Hin'. simpl in *. congruence.
      - intros Hp. exists (i, c). split; [done|].
        apply list_elem_of_filter. split; [done|]. by apply enumerate_lookup. }
    rewrite !Hflag. destruct (is_inorganic c), (contains_metal c);
      intuition congruence.
  - unfold filter_metals_first.
    pose proof (filter_pass contains_metal components) as H1.
    destruct (flag contains_metal components) as [frag|e]; [|done]. simpl in *.
    rewrite H1. simpl. by rewrite filter_pass, list_filter_filter.
Qed.

Lemma filter_order_irrelevant_witness :
  filter_components [water; butane; elemental_iron; silane] = Ok [butane; silane] ∧
  filter_with_flags_of_original [water; butane; elemental_iron; silane]
  = Ok [butane; silane] ∧
  filter_metals_first [water; butane; elemental_iron; silane] = Ok [butane; silane].
Proof. exact (filter_order_irrelevant [water; butane; elemental_iron; silane]). Defined.

(** ** The classification predicates, by their atoms *)

Lemma contains_metal_true (mol : Mol) :
  contains_metal mol = true ↔
  ∃ a, a ∈ GetAtoms mol ∧ GetAtomicNum a ∉ allowed_atoms.
Proof.
  unfold contains_metal. induction (GetAtoms mol) as [|a l IH]; simpl.
  - split; [done|]. intros (a & Ha & _). by apply elem_of_nil in Ha.
  - unfold in_list.
    destruct (bool_decide_reflect (GetAtomicNum a ∈ allowed_atoms)) as [Hin|Hin];
      simpl.
    + rewrite IH. split.
      * intros (b & Hb & Hn). exists b. split; [by right|done].
      * intros (b & [->|Hb]%elem_of_cons & Hn); [done|eauto].
    + split; [|done]. intros _. exists a. split; [by left|done].
Qed.

Lemma is_inorganic_true (mol : Mol) :
  is_inorganic mol = true ↔
  ∀ a, a ∈ GetAtoms mol → GetAtomicNum a ≠ 6%Z ∧ GetAtomicNum a ≠ 14%Z.
Proof.
  unfold is_inorganic. induction (GetAtoms mol) as [|a l IH]; simpl.
  - split; [|done]. intros _ a Ha. by apply elem_of_nil in Ha.
  - destruct (Z.eqb_spec (GetAtomicNum a) 6) as [E|E].
    { split; [done|]. intros H. destruct (H a); [by left|done]. }
    destruct (Z.eqb_spec (GetAtomicNum a) 14) as [E'|E'].
    { split; [done|]. intros H. destruct (H a); [by left|done]. }
    rewrite IH. split.
    + intros H b [->|Hb]%elem_of_cons; [done|by apply H].
    + intros H b Hb. apply H. by right.
Qed.

Lemma for_each_raises {A S} (body : S → A → exc S) (s : S) (l : list A) x :
  x ∈ l → (∀ s, ∃ e, body s x = Raise e) → ∃ e, for_each body s l = Raise e.
Proof.
  intros Hx Hraise. revert s.
  induction l as [|y l IH]; intros s; [by apply elem_of_nil in Hx|]. simpl.
  destruct (body s y) as [s'|e] eqn:E; [|by exists e]. simpl.
  apply elem_of_cons in Hx as [->|Hx]; [|by apply IH].
  destruct (Hraise s) as [e He]. congruence.
Qed.

(** ** First occurrences per key *)

Section first_seen.
Variable key : Mol → string.

Lemma first_seen_ext (s1 s2 : list string) (l : list Mol) :
  (∀ k, k ∈ s1 ↔ k ∈ s2) → first_seen key s1 l = first_seen key s2 l.
Proof.
  revert s1 s2; induction l as [|x l IH]; intros s1 s2 Hs; [done|]. simpl.
  rewrite (bool_decide_ext _ _ (Hs (key x))).
  destruct (bool_decide (key x ∈ s2)); [by apply IH|].
  f_equal. apply IH. intros k. rewrite !elem_of_cons, Hs. done.
Qed.

Lemma first_seen_fresh (seen : list string) (l : list Mol) r :
  r ∈ first_seen key seen l → (key r ∉ seen) ∧ r ∈ l.
Proof.
  revert seen; induction l as [|x l IH]; intros seen; simpl.
  - by intros ?%elem_of_nil.
  - destruct (bool_decide_reflect (key x ∈ seen)) as [Hx|Hx].
    + intros [? ?]%IH. split; [done|by right].
    + intros [->|Hr]%elem_of_cons; [split; [done|by left]|].
      apply IH in Hr as [Hr ?]. split; [|by right].
      rewrite not_elem_of_cons in Hr. tauto.
Qed.

Lemma first_seen_NoDup (seen : list string) (l : list Mol) :
  NoDup (key <$> first_seen key seen l).
Proof.
  revert seen; induction l as [|x l IH]; intros seen; simpl; [constructor|].
  destruct (bool_decide (key x ∈ seen)); [apply IH|].
  rewrite fmap_cons. constructor; [|apply IH].
  intros (r & Hk & Hr%first_seen_fresh)%list_elem_of_fmap.
  destruct Hr as [Hr _]. rewrite <- Hk in Hr. apply Hr. by left.
Qed.

Lemma first_seen_covers (seen : list string) (l : list Mol) n :
  n ∈ l → key n ∈ seen ∨ key n ∈ key <$> first_seen key seen l.
Proof.
  revert seen; induction l as [|x l IH]; intros seen; simpl.
  - by intros ?%elem_of_nil.
  - intros [->|Hn]%elem_of_cons.
    + destruct (bool_decide_reflect (key x ∈ seen)); [by left|].
      right. rewrite fmap_cons. by left.
    + destruct (bool_decide_reflect (key x ∈ seen)); [by apply IH|].
      destruct (IH (key x :: seen) Hn) as [[->|?]%elem_of_cons|?].
      * right. rewrite fmap_cons. by left.
      * by left.
      * right. rewrite fmap_cons. by right.
Qed.

Lemma first_seen_sublist (seen : list string) (l : list Mol) :
  first_seen key seen l `sublist_of` l.
Proof.
  revert seen; induction l as [|x l IH]; intros seen; simpl; [constructor|].
  destruct (bool_decide (key x ∈ seen)).
  - by apply sublist_cons.
  - by apply sublist_skip.
Qed.

Lemma first_seen_first (seen : list string) (l : list Mol) r :
  r ∈ first_seen key seen l →
  ∃ i, l !! i = Some r ∧ ∀ j n, j < i → l !! j = Some n → key n ≠ key r.
Proof.
  revert seen; induction l as [|x l IH]; intros seen; simpl.
  - by intros ?%elem_of_nil.
  - destruct (bool_decide_reflect (key x ∈ seen)) as [Hx|Hx].
    + intros Hr. pose proof (first_seen_fresh _ _ _ Hr) as [Hfresh _].
      apply IH in Hr as (i & Hi & Hbefore). exists (S i). split; [done|].
      intros [|j] n Hj Hn; simpl in Hn.
      * injection Hn as <-. congruence.
      * apply (Hbefore j); [lia|done].
    + intros [->|Hr]%elem_of_cons.
      * exists 0. split; [done|]. intros; lia.
      * pose proof (first_seen_fresh _ _ _ Hr) as [Hfresh _].
        apply IH in Hr as (i & Hi & Hbefore). exists (S i). split; [done|].
        intros [|j] n Hj Hn; simpl in Hn.
        -- injection Hn as <-. intros E. apply Hfresh. rewrite E. by left.
        -- apply (Hbefore j); [lia|done].
Qed.

End first_seen.

(** ** Re-attached properties *)

Lemma set_properties_loop (l : list (string * PyVal)) (mol : Mol) :
  NoDup l.*1 →
  ∀ k, GetProp
         (foldl (λ mol '(prop, value), SetProp mol prop (str value)) mol l) !! k
       = match list_find (λ pv, pv.1 = k) l with
         | Some (_, (_, v)) => Some (str v)
         | None => GetProp mol !! k
         end.
Proof.
  induction l as [|[p v] l IH] using rev_ind; intros Hnd k; [done|].
  rewrite fmap_app in Hnd. apply NoDup_app in Hnd as (Hnd & Hp & _).
  rewrite foldl_snoc. simpl.
  destruct (list_find (λ pv, pv.1 = k) l) as [[i [p' v']]|] eqn:Hf.
  - rewrite (list_find_app_l _ _ _ _ _ Hf).
    pose proof Hf as (Hi & Hk & _)%list_find_Some. simpl in Hk. subst p'.
    rewrite lookup_insert_ne.
    + rewrite IH by done. by rewrite Hf.
    + intros ->. apply (Hp k); [|by left].
      apply list_elem_of_fmap. exists (k, v'). split; [done|].
      by eapply list_elem_of_lookup_2.
  - rewrite list_find_app_r by done. simpl.
    destruct (decide (p = k)) as [->|Hne]; simpl.
    + by rewrite lookup_insert_eq.
    + rewrite lookup_insert_ne by done. rewrite IH by done. by rewrite Hf.
Qed.

Section deduplication.
Variable neutralise : Mol → exc Mol.
Variable UpdatePropertyCache : Mol → exc ().
Variable MolToInchi : Mol → string.
Variable InchiToInchiKey : string → string.

Local Abbreviation remove_duplicate_components' :=
  (remove_duplicate_components neutralise UpdatePropertyCache
     MolToInchi InchiToInchiKey).

Lemma remove_duplicate_components_loop (l ns : list Mol)
    (acc : list (string * Mol)) :
  let key n := InchiToInchiKey (MolToInchi n) in
  neutral_forms UpdatePropertyCache neutralise l = Ok ns →
  for_each
    (λ (inchi_keys : list (string * Mol)) comp,
       _ ← UpdatePropertyCache comp;
       comp ← neutralise comp;
       let inchi := MolToInchi comp in
       let inchi_key := InchiToInchiKey inchi in
       if bool_decide (inchi_key ∉ inchi_keys.*1)
       then Ok (inchi_keys ++ [(inchi_key, comp)])
       else Ok inchi_keys)
    acc l
  = Ok (acc ++ ((λ n, (key n, n)) <$> first_seen key acc.*1 ns)).
Proof.
  intros key. revert ns acc; induction l as [|c l IH]; intros ns acc Hns;
    simpl in Hns; simpl.
  - injection Hns as <-. simpl. by rewrite app_nil_r.
  - destruct (UpdatePropertyCache c) as [[]|e]; simpl in Hns; simpl; [|done].
    destruct (neutralise c) as [n|e]; simpl in Hns; simpl; [|done].
    destruct (neutral_forms _ _ l) as [ns'|e]; simpl in Hns; [|done].
    injection Hns as <-. simpl. fold (key n).
    destruct (bool_decide_reflect (key n ∈ acc.*1)) as [Hin|Hin].
    + rewrite bool_decide_eq_false_2 by tauto. by apply IH.
    + rewrite bool_decide_eq_true_2 by done.
      etrans; [by apply (IH ns')|].
      rewrite <- app_assoc. simpl. do 4 f_equal.
      apply first_seen_ext. intros k.
      rewrite fmap_app, elem_of_app, elem_of_cons. simpl.
      rewrite list_elem_of_singleton. tauto.
Qed.

(** C3. When every fragment has a neutral form, de-duplication returns
    the neutral forms whose InChIKey was not met before, in first-seen
    order: one survivor per key, each the first neutral form of its key.
    Two fragments whose neutral forms have the same key leave exactly one
    survivor, the neutral form of the first. *)
Theorem dedup_keeps_first_per_key (components ns : list Mol) :
  let key n := InchiToInchiKey (MolToInchi n) in
  neutral_forms UpdatePropertyCache neutralise components = Ok ns →
  ∃ survivors,
    remove_duplicate_components' components = Ok survivors ∧
    survivors = first_seen key [] ns ∧
    NoDup (key <$> survivors) ∧
    (∀ n, n ∈ ns → key n ∈ key <$> survivors) ∧
    survivors `sublist_of` ns ∧
    (∀ r, r ∈ survivors →
       ∃ i, ns !! i = Some r ∧
            ∀ j n, j < i → ns !! j = Some n → key n ≠ key r) ∧
    (∀ a b, ns = [a; b] → key a = key b → survivors = [a]).
Proof.
  intros key Hns. exists (first_seen key [] ns). split_and!.
  - unfold remove_duplicate_components.
    etrans; [exact (f_equal (λ x, x ≫= λ inchi_keys, Ok inchi_keys.*2)
                      (remove_duplicate_components_loop components ns [] Hns))|].
    simpl. f_equal. rewrite <- list_fmap_compose. apply list_fmap_id.
  - done.
  - apply first_seen_NoDup.
  - intros n Hn.
    by destruct (first_seen_covers key [] ns n Hn) as [?%elem_of_nil|?].
  - apply first_seen_sublist.
  - intros r. apply first_seen_first.
  - intros a b -> Hk. simpl. rewrite <- Hk.
    by rewrite bool_decide_eq_true_2 by left.
Qed.

End deduplication.

Lemma set_properties_props (properties : gmap string PyVal) (mol : Mol) :
  GetProp (set_properties properties mol)
  = (str <$> properties) ∪ GetProp mol.
Proof.
  apply map_eq. intros k. unfold set_properties.
  rewrite set_properties_loop by apply NoDup_fst_map_to_list.
  destruct (list_find _ _) as [[i [p v]]|] eqn:Hf.
  - apply list_find_Some in Hf as (Hi & Hk & _). simpl in Hk. subst p.
    apply list_elem_of_lookup_2, elem_of_map_to_list in Hi.
    symmetry. apply lookup_union_Some_l. by rewrite lookup_fmap, Hi.
  - rewrite lookup_union_r; [done|]. rewrite lookup_fmap.
    destruct (properties !! k) as [v|] eqn:E; [|done].
    apply elem_of_map_to_list in E.
    eapply list_find_None, Forall_forall in Hf; [|exact E]. by destruct Hf.
Qed.

Section claims.
Variable GetMolFrags : Mol → list Mol.
Variable neutralise : Mol → exc Mol.
Variable UpdatePropertyCache : Mol → exc ().
Variable MolToInchi : Mol → string.
Variable InchiToInchiKey : string → string.
Variable float_str : string → option string.

Local Abbreviation standardise' :=
  (standardise GetMolFrags neutralise UpdatePropertyCache
     MolToInchi InchiToInchiKey float_str).
Local Abbreviation GetPropsAsDict' := (GetPropsAsDict float_str).
Local Abbreviation remove_duplicate_components' :=
  (remove_duplicate_components neutralise UpdatePropertyCache
     MolToInchi InchiToInchiKey).
Local Abbreviation try_neutralise' := (try_neutralise neutralise UpdatePropertyCache).

(** C4. When the stripped molecule has exactly one fragment, a disallowed
    atom (atomic number outside 1, 6, 7, 8, 9, 14, 15, 16, 17, 35, 53) in it
    gives the rejection ContainsMetal; with none, and neither carbon nor
    silicon in it, the rejection is Inorganic. The disallowed-atom check
    comes first, so a lone iron atom is rejected as ContainsMetal. *)
Theorem single_fragment_rejections (mol stripped : Mol) :
  remove_salt_metals mol = Ok stripped →
  length (GetMolFrags stripped) = 1 →
  ((∃ a, a ∈ GetAtoms stripped ∧
         GetAtomicNum a ∉ [1; 6; 7; 8; 9; 14; 15; 16; 17; 35; 53]%Z) →
   standardise' mol = Ok (Rejected ContainsMetal)) ∧
  ((∀ a, a ∈ GetAtoms stripped →
         GetAtomicNum a ∈ [1; 6; 7; 8; 9; 14; 15; 16; 17; 35; 53]%Z) →
   (∀ a, a ∈ GetAtoms stripped →
         GetAtomicNum a ≠ 6%Z ∧ GetAtomicNum a ≠ 14%Z) →
   standardise' mol = Ok (Rejected Inorganic)) ∧
  (mol = elemental_iron → standardise' mol = Ok (Rejected ContainsMetal)).
Proof.
  intros Hs Hlen.
  assert (Hmetal : contains_metal stripped = true →
                   standardise' mol = Ok (Rejected ContainsMetal)).
  { intros Hm. unfold standardise. rewrite Hs. simpl.
    rewrite decide_False by lia. by rewrite Hm. }
  split_and!.
  - intros Hex. by apply Hmetal, contains_metal_true.
  - intros Hall Hno. unfold standardise. rewrite Hs. simpl.
    rewrite decide_False by lia.
    destruct (contains_metal stripped) eqn:Hm.
    { apply contains_metal_true in Hm as (a & Ha & Hn). destruct Hn. by apply Hall. }
    by rewrite (proj2 (is_inorganic_true stripped) Hno).
  - intros ->. apply Hmetal. by injection Hs as <-.
Qed.

Lemma try_neutralise_raises (mol : Mol) :
  (∃ e, UpdatePropertyCache mol = Raise e ∨ neutralise mol = Raise e) →
  try_neutralise' mol = Rejected NeutralizationFailed.
Proof.
  intros [e He]. unfold try_neutralise.
  destruct (UpdatePropertyCache mol) as [[]|e1]; simpl; [|done].
  destruct (neutralise mol) as [m|e2]; [|done]. by destruct He.
Qed.

Lemma remove_duplicate_components_raises (components : list Mol) :
  (∃ comp e, comp ∈ components ∧
     (UpdatePropertyCache comp = Raise e ∨ neutralise comp = Raise e)) →
  ∃ e, remove_duplicate_components' components = Raise e.
Proof.
  intros (comp & e & Hin & He). unfold remove_duplicate_components.
  match goal with
  | |- ∃ e, for_each ?body ?s ?l ≫= _ = _ =>
      destruct (for_each_raises body s l comp Hin) as [e' He']
  end.
  - intros s. destruct (UpdatePropertyCache comp) as [[]|e1]; simpl; [|by eexists].
    destruct (neutralise comp) as [m|e2]; simpl; [|by eexists]. by destruct He.
  - exists e'. by rewrite He'.
Qed.

(** C5. [standardise] never raises, and a failure of a neutralisation
    step, be it on a fragment during de-duplication or on the chosen
    fragment in the closing step of either path, gives the rejection
    NeutralizationFailed, returned as the tuple of [False] and
    "Molecule could not be neutralised". *)
Theorem neutralisation_failures_rejected (mol stripped : Mol) :
  remove_salt_metals mol = Ok stripped →
  let fails m :=
    ∃ e, UpdatePropertyCache m = Raise e ∨ neutralise m = Raise e in
  (∃ o, standardise' mol = Ok o) ∧
  (1 < length (GetMolFrags stripped) →
   (∃ comp, comp ∈ GetMolFrags stripped ∧ fails comp) →
   standardise' mol = Ok (Rejected NeutralizationFailed)) ∧
  (∀ components survivors chosen,
     1 < length (GetMolFrags stripped) →
     remove_duplicate_components' (GetMolFrags stripped) = Ok components →
     filter_components components = Ok survivors →
     choose_component survivors = Ok (inr chosen) →
     fails (set_properties (GetPropsAsDict' stripped) chosen) →
     standardise' mol = Ok (Rejected NeutralizationFailed)) ∧
  (¬ 1 < length (GetMolFrags stripped) →
   contains_metal stripped = false → is_inorganic stripped = false →
   fails stripped →
   standardise' mol = Ok (Rejected NeutralizationFailed)) ∧
  as_tuple (Rejected NeutralizationFailed)
  = (false, inr "Molecule could not be neutralised").
Proof.
  intros Hs fails. split_and!.
  - apply standardise_total.
  - intros Hlen (comp & Hin & e & He). unfold standardise. rewrite Hs. simpl.
    rewrite decide_True by done.
    destruct (remove_duplicate_components_raises (GetMolFrags stripped))
      as [e' ->]; [|done].
    by exists comp, e.
  - intros cs survivors chosen Hlen Hd Hf Hc Hfail.
    unfold standardise. rewrite Hs. simpl.
    rewrite decide_True by done. rewrite Hd, Hf. simpl. rewrite Hc. simpl.
    by rewrite try_neutralise_raises.
  - intros Hlen Hm Hi Hfail. unfold standardise. rewrite Hs. simpl.
    rewrite decide_False by done. rewrite Hm, Hi.
    by rewrite try_neutralise_raises.
  - done.
Qed.

(** What the multi-fragment path hands to the closing neutralisation:
    a fragment that has every property name of the input, with the value
    [str] makes of what [GetPropsAsDict] returned for it. *)
Lemma reattached_values (mol stripped result : Mol) :
  remove_salt_metals mol = Ok stripped →
  1 < length (GetMolFrags stripped) →
  standardise' mol = Ok (Success result) →
  ∃ chosen, neutralise chosen = Ok result ∧
    ∀ prop value, GetProp mol !! prop = Some value →
      GetProp chosen !! prop = Some (str (autoconvert float_str value)).
Proof.
  intros Hs Hlen Hok.
  destruct (remove_salt_metals_atoms mol) as (stripped' & Hs' & _ & Hprops).
  rewrite Hs in Hs'. injection Hs' as <-.
  unfold standardise in Hok. rewrite Hs in Hok. simpl in Hok.
  rewrite decide_True in Hok by done.
  destruct (remove_duplicate_components' _) as [cs|e]; [|done].
  destruct (filter_components cs) as [survivors|e]; simpl in Hok; [|done].
  destruct (choose_component survivors) as [[o|chosen]|e] eqn:Hc;
    simpl in Hok; [| |done].
  - destruct (choose_component_total survivors) as (r & Hr & Hshape).
    rewrite Hc in Hr. injection Hr as <-. destruct Hshape as [_ ->]. done.
  - unfold try_neutralise in Hok.
    destruct (UpdatePropertyCache _) as [[]|e]; simpl in Hok; [|done].
    destruct (neutralise _) as [m|e] eqn:Hn; [|done].
    injection Hok as ->. eexists. split; [exact Hn|].
    intros prop value Hprop. rewrite set_properties_props.
    apply lookup_union_Some_l. unfold GetPropsAsDict.
    by rewrite !lookup_fmap, Hprops, Hprop.
Qed.

(** C8. The code on a mixture whose property ID is written 007, whatever
    the collaborators: [GetPropsAsDict] returns the int 7 for it and [str]
    of that is re-attached, so when the standardisation succeeds on the
    multi-fragment path the fragment handed to the closing neutralisation
    carries ID as 7, not as the 007 of the input. *)
Theorem zero_padded_property_rewritten (stripped result : Mol) :
  remove_salt_metals zero_padded_mixture = Ok stripped →
  1 < length (GetMolFrags stripped) →
  standardise' zero_padded_mixture = Ok (Success result) →
  GetProp zero_padded_mixture !! "ID" = Some "007" ∧
  ∃ chosen, neutralise chosen = Ok result ∧
            GetProp chosen !! "ID" = Some "7".
Proof.
  intros Hs Hlen Hok. split; [done|].
  destruct (reattached_values _ _ _ Hs Hlen Hok) as (chosen & Hn & Hvalues).
  exists chosen. split; [done|].
  by rewrite (Hvalues "ID" "007").
Qed.

End claims.

(** ** The claims on the reference collaborators *)

Lemma single_fragment_rejections_witness :
  standardise split_fragments uncharged cache_updated rendering hashed no_double
    elemental_iron
  = Ok (Rejected ContainsMetal).
Proof.
  apply (proj2 (proj2 (single_fragment_rejections split_fragments uncharged
           cache_updated rendering hashed no_double elemental_iron elemental_iron
           eq_refl eq_refl))).
  reflexivity.
Defined.

Lemma neutralisation_failures_rejected_witness :
  standardise split_fragments uncharged cache_updated rendering hashed no_double
    methane_and_dummy
  = Ok (Rejected NeutralizationFailed).
Proof.
  apply (proj1 (proj2 (neutralisation_failures_rejected split_fragments
           uncharged cache_updated rendering hashed no_double methane_and_dummy
           methane_and_dummy eq_refl))).
  - vm_compute. lia.
  - exists (molecule [0]%Z []). split.
    + right. left.
    + exists (LibraryError "Sanity_check"). by right.
Defined.

Lemma dedup_keeps_first_per_key_witness :
  remove_duplicate_components uncharged cache_updated rendering hashed
    [acetate; acetic_acid]
  = Ok [acetic_acid].
Proof.
  destruct (dedup_keeps_first_per_key uncharged cache_updated rendering hashed
              [acetate; acetic_acid] [acetic_acid; acetic_acid] eq_refl)
    as (survivors & Hs & _ & _ & _ & _ & _ & Htwo).
  rewrite Hs. f_equal. by apply (Htwo acetic_acid acetic_acid).
Defined.

Lemma zero_padded_property_rewritten_witness :
  standardise split_fragments uncharged cache_updated rendering hashed no_double
    zero_padded_mixture
  = Ok (Success (mkMol (GetAtoms acetic_acid) (GetBonds acetic_acid)
                       {[ "ID" := "7" ]})) ∧
  GetProp zero_padded_mixture !! "ID" = Some "007" ∧
  ∃ chosen,
    uncharged chosen
    = Ok (mkMol (GetAtoms acetic_acid) (GetBonds acetic_acid)
                {[ "ID" := "7" ]}) ∧
    GetProp chosen !! "ID" = Some "7".
Proof.
  assert (Hrun : standardise split_fragments uncharged cache_updated rendering
                   hashed no_double zero_padded_mixture
                 = Ok (Success (mkMol (GetAtoms acetic_acid)
                                      (GetBonds acetic_acid)
                                      {[ "ID" := "7" ]})))
    by (vm_compute; reflexivity).
  split; [exact Hrun|].
  eapply (zero_padded_property_rewritten split_fragments uncharged
            cache_updated rendering hashed no_double).
  - vm_compute. reflexivity.
  - vm_compute. lia.
  - exact Hrun.
Defined.

(** ** Stripping twice *)

Lemma shift_idx_inj (r x y : nat) :
  x ≠ r → y ≠ r → shift_idx r x = shift_idx r y ↔ x = y.
Proof. unfold shift_idx. intros. repeat case_decide; lia. Qed.

Lemma incident_spec (i : nat) (b : nat * nat) :
  incident i b = true ↔ b.1 = i ∨ b.2 = i.
Proof.
  unfold incident. rewrite orb_true_iff, !bool_decide_eq_true. done.
Qed.

Lemma incident_false (i : nat) (b : nat * nat) :
  incident i b = false ↔ b.1 ≠ i ∧ b.2 ≠ i.
Proof.
  rewrite <- not_true_iff_false, incident_spec. tauto.
Qed.

(** An atom that has no bond to [r] keeps its degree when [r] goes. *)
Lemma without_atom_degree (mol : Mol) (r j : nat) :
  j ≠ r →
  (∀ b, b ∈ GetBonds mol → incident j b = true → incident r b = false) →
  GetDegree (without_atom r mol) (shift_idx r j) = GetDegree mol j.
Proof.
  intros Hj Hfree. unfold GetDegree, without_atom. simpl. f_equal.
  rewrite filter_fmap, length_fmap, list_filter_filter. f_equal.
  apply filter_ext_in. intros [x y] Hb. simpl.
  rewrite !incident_spec, incident_false. simpl. split.
  - intros [[Hx|Hy] [Hxr Hyr]].
    + left. by apply (shift_idx_inj r).
    + right. by apply (shift_idx_inj r).
  - intros Hinc.
    assert (x ≠ r ∧ y ≠ r) as [Hxr Hyr].
    { apply (incident_false r (x, y)), Hfree; [done|]. by apply incident_spec. }
    split; [|done]. destruct Hinc as [->| ->]; [by left|by right].
Qed.

Lemma settled_step (mol : Mol) (r : nat) (pending : list nat) :
  Forall (λ j, j < r) pending →
  settled mol (r :: pending) → settled (without_atom r mol) pending.
Proof.
  intros Hlt Hset j' a Ha Hj' Hsalt. rewrite Forall_forall in Hlt.
  set (j := if decide (j' < r) then j' else S j').
  assert (Hshift : shift_idx r j = j').
  { unfold shift_idx, j. repeat case_decide; lia. }
  assert (Hjr : j ≠ r) by (unfold j; case_decide; lia).
  assert (Hat : GetAtoms mol !! j = Some a).
  { simpl in Ha. unfold j. case_decide.
    - by rewrite list_lookup_delete_lt in Ha.
    - by rewrite list_lookup_delete_ge in Ha by lia. }
  assert (Hpend : j ∉ r :: pending).
  { rewrite not_elem_of_cons. split; [done|]. unfold j. case_decide; [done|].
    intros Hin%Hlt. lia. }
  destruct (Hset j a Hat Hpend Hsalt) as [Hdeg Hbonds].
  assert (Hfree : ∀ b, b ∈ GetBonds mol → incident j b = true →
                       incident r b = false).
  { intros b Hb Hinc. destruct (Hbonds b Hb Hinc) as [H1 H2].
    rewrite not_elem_of_cons in H1, H2. apply incident_false. tauto. }
  split.
  - by rewrite <- Hshift, without_atom_degree.
  - intros b' Hb' Hinc'. simpl in Hb'.
    apply list_elem_of_fmap in Hb' as ([x y] & -> & Hb).
    apply list_elem_of_filter in Hb as [Hnr Hb].
    apply incident_false in Hnr as [Hxr Hyr]. simpl in *.
    assert (Hinc : incident j (x, y) = true).
    { apply incident_spec. apply incident_spec in Hinc'. simpl in *.
      rewrite <- Hshift in Hinc'.
      destruct Hinc' as [E|E]; apply shift_idx_inj in E; auto. }
    destruct (Hbonds (x, y) Hb Hinc) as [H1 H2]. simpl in *.
    rewrite not_elem_of_cons in H1, H2.
    assert (Hkeep : ∀ z, z ≠ r → z ∉ pending → shift_idx r z ∉ pending).
    { intros z Hz Hzp. unfold shift_idx. case_decide; [|done].
      intros Hin%Hlt. lia. }
    split; apply Hkeep; tauto.
Qed.

Lemma settled_after (pending : list nat) :
  StronglySorted (flip lt) pending →
  ∀ mol, settled mol pending →
         settled (foldl (λ mol idx, without_atom idx mol) mol pending) [].
Proof.
  induction 1 as [|r pending Hs IH Hr]; intros mol Hset; [done|].
  simpl. apply IH. by apply settled_step.
Qed.

Lemma settled_to_remove (mol : Mol) : settled mol [] → to_remove mol = [].
Proof.
  intros Hset. rewrite to_remove_strippable.
  rewrite filter_none; [done|].
  intros [j a] Hin%enumerate_lookup [Hsalt Hdeg]. simpl in *.
  destruct (Hset j a Hin) as [Hd _]; [apply not_elem_of_nil|done|lia].
Qed.

(** C6, as amended. On a molecule in which no salt-metal atom of degree
    above 1 is bonded to an atom that the stripping removes, stripping a
    second time returns the molecule the first stripping gave. *)
Theorem remove_salt_metals_idempotent_when_settled (mol : Mol) :
  (∀ b i a, b ∈ GetBonds mol → incident i b = true →
     GetAtoms mol !! i = Some a → GetAtomicNum a ∈ salt_metals →
     (1 < GetDegree mol i)%Z →
     ∀ j a', j = b.1 ∨ j = b.2 → GetAtoms mol !! j = Some a' →
             ¬ strippable mol (j, a')) →
  ∃ stripped, remove_salt_metals mol = Ok stripped ∧
              remove_salt_metals stripped = Ok stripped ∧
              (m ← remove_salt_metals mol; remove_salt_metals m)
              = remove_salt_metals mol.
Proof.
  intros Hfree. rewrite remove_salt_metals_steps.
  set (stripped := foldl _ mol _).
  assert (remove_salt_metals stripped = Ok stripped) as Hagain.
  { unfold remove_salt_metals.
    rewrite (settled_to_remove stripped); [done|].
    apply settled_after; [apply to_remove_descending|].
    assert (Hmem : ∀ j, j ∈ to_remove mol ↔
              ∃ a, GetAtoms mol !! j = Some a ∧ strippable mol (j, a)).
    { intros j. rewrite to_remove_strippable, list_elem_of_fmap. split.
      - intros ([j' a] & -> & [Hst Hin%enumerate_lookup]%list_elem_of_filter).
        eauto.
      - intros (a & Ha & Hst). exists (j, a). split; [done|].
        apply list_elem_of_filter. split; [done|]. by apply enumerate_lookup. }
    intros j a Ha Hj Hsalt. rewrite elem_of_reverse, Hmem in Hj.
    assert (Hdeg : (1 < GetDegree mol j)%Z).
    { destruct (decide (1 < GetDegree mol j)%Z) as [|Hn]; [done|].
      destruct Hj. exists a. split; [done|]. split; [done|simpl; lia]. }
    split; [done|]. intros b Hb Hinc.
    split; rewrite elem_of_reverse, Hmem; intros (a' & Ha' & Hst).
    - by apply (Hfree b j a Hb Hinc Ha Hsalt Hdeg b.1 a' (or_introl eq_refl)).
    - by apply (Hfree b j a Hb Hinc Ha Hsalt Hdeg b.2 a' (or_intror eq_refl)). }
  exists stripped. split_and!; try done.
Qed.

Lemma remove_salt_metals_idempotent_when_settled_witness :
  ∃ stripped,
    remove_salt_metals magnesium_chloride_and_sodium = Ok stripped ∧
    remove_salt_metals stripped = Ok stripped ∧
    (m ← remove_salt_metals magnesium_chloride_and_sodium; remove_salt_metals m)
    = remove_salt_metals magnesium_chloride_and_sodium.
Proof.
  apply remove_salt_metals_idempotent_when_settled.
  intros b i a Hb _ _ _ _ j a' Hj Ha' [Hs' Hd'].
  simpl in Hb. rewrite !elem_of_cons, elem_of_nil in Hb.
  destruct Hb as [->|[->|[]]]; simpl in Hj; destruct Hj as [->| ->];
    simpl in Ha'; injection Ha' as <-;
    first [ by (revert Hs'; apply (bool_decide_eq_false_1 _); reflexivity)
          | by (vm_compute in Hd'; apply Hd') ].
Defined.

(** C6, as stated, fails: stripping Cl-Mg-Na removes the sodium and keeps
    the magnesium, which has two bonds; on the result the magnesium has one
    bond left, and a second stripping removes it. *)
Lemma remove_salt_metals_not_idempotent :
  remove_salt_metals chloromagnesium_sodium = Ok (chain [17; 12]%Z) ∧
  remove_salt_metals (chain [17; 12]%Z) = Ok (molecule [17]%Z []) ∧
  (m ← remove_salt_metals chloromagnesium_sodium; remove_salt_metals m)
  ≠ remove_salt_metals chloromagnesium_sodium.
Proof. split_and!; [reflexivity..|]. vm_compute. discriminate. Qed.

(** * Further properties of the code *)

(** ** The classification predicates *)

(** X1. [is_inorganic] answers true exactly when no atom is a carbon
    (atomic number 6) or a silicon (14), false exactly when some atom is;
    a molecule without atoms is inorganic. *)
Theorem is_inorganic_no_carbon_no_silicon (mol : Mol) :
  (is_inorganic mol = true ↔
     ∀ a, a ∈ GetAtoms mol → GetAtomicNum a ≠ 6%Z ∧ GetAtomicNum a ≠ 14%Z) ∧
  (is_inorganic mol = false ↔
     ∃ a, a ∈ GetAtoms mol ∧ (GetAtomicNum a = 6%Z ∨ GetAtomicNum a = 14%Z)) ∧
  (GetAtoms mol = [] → is_inorganic mol = true).
Proof.
  split_and!.
  - apply is_inorganic_true.
  - rewrite <- not_true_iff_false, is_inorganic_true. split.
    + intros Hn.
      destruct (decide (Exists (λ a, GetAtomicNum a = 6%Z ∨ GetAtomicNum a = 14%Z)
                          (GetAtoms mol))) as [Hex|Hno].
      * by apply Exists_exists in Hex.
      * destruct Hn. intros a Ha.
        split; intros E; apply Hno, Exists_exists; exists a; tauto.
    + intros (a & Ha & E) Hall. destruct (Hall a Ha). tauto.
  - intros E. apply is_inorganic_true. rewrite E. by intros a ?%elem_of_nil.
Qed.

(** X2. [contains_metal] answers true exactly when some atom has an atomic
    number outside 1, 6, 7, 8, 9, 14, 15, 16, 17, 35, 53, and false exactly
    when every atom is inside; each of the salt metals 3, 11, 12, 19, 20 is
    outside, so one salt-metal atom makes the answer true. *)
Theorem contains_metal_disallowed_atom (mol : Mol) :
  (contains_metal mol = true ↔
     ∃ a, a ∈ GetAtoms mol ∧
          GetAtomicNum a ∉ [1; 6; 7; 8; 9; 14; 15; 16; 17; 35; 53]%Z) ∧
  (contains_metal mol = false ↔
     ∀ a, a ∈ GetAtoms mol →
          GetAtomicNum a ∈ [1; 6; 7; 8; 9; 14; 15; 16; 17; 35; 53]%Z) ∧
  (∀ a, a ∈ GetAtoms mol → GetAtomicNum a ∈ [3; 11; 12; 19; 20]%Z →
        contains_metal mol = true).
Proof.
  split_and!.
  - apply contains_metal_true.
  - rewrite <- not_true_iff_false, contains_metal_true. split.
    + intros Hn a Ha. apply dec_stable. intros Hout. apply Hn. eauto.
    + intros Hall (a & Ha & Hout). by apply Hout, Hall.
  - intros a Ha Hsalt. apply contains_metal_true. exists a. split; [done|].
    intros Hall. unfold allowed_atoms in Hall.
    rewrite !elem_of_cons, elem_of_nil in Hsalt.
    rewrite !elem_of_cons, elem_of_nil in Hall. lia.
Qed.

(** X3. A molecule that [is_silane] accepts is never inorganic, and an
    inorganic molecule is never a silane. *)
Theorem is_silane_not_inorganic (mol : Mol) :
  (is_silane mol = true → is_inorganic mol = false) ∧
  (is_inorganic mol = true → is_silane mol = false).
Proof.
  assert (H : is_silane mol = true → is_inorganic mol = false).
  { unfold is_silane. rewrite is_silane_loop. simpl.
    destruct (bool_decide_reflect
                (Exists (λ a, GetAtomicNum a = 6%Z) (GetAtoms mol))) as [Hc|Hc];
      [|done].
    intros _. apply not_true_iff_false. rewrite is_inorganic_true.
    apply Exists_exists in Hc as (a & Ha & E). intros Hall.
    by destruct (Hall a Ha). }
  split; [done|]. intros Hi. destruct (is_silane mol); [|done].
  rewrite H in Hi; done.
Qed.

Lemma is_silane_not_inorganic_witness : is_inorganic silane = false.
Proof. apply (proj1 (is_silane_not_inorganic silane)). reflexivity. Defined.

(** ** get_largest_component, one component more *)

(** X4. Appending a component to a non-empty list changes the choice of
    [get_largest_component] only when the new component has strictly more
    heavy atoms than the component chosen before; it is then the new one. *)
Theorem get_largest_component_snoc (cs : list Mol) (best x : Mol) :
  get_largest_component cs = Ok best →
  get_largest_component (cs ++ [x])
  = Ok (if (GetNumHeavyAtoms best <? GetNumHeavyAtoms x)%Z then x else best).
Proof.
  intros Hbest.
  assert (cs ≠ []) as Hne by (by intros ->).
  unfold get_largest_component in *. unfold enumerate in *.
  rewrite enumerate_from_app, foldl_app. simpl.
  pose proof (largest_loop_invariant cs) as Hinv. unfold enumerate in Hinv.
  destruct (foldl _ _ (enumerate_from 0 cs)) as [lc na].
  destruct Hinv as (Hmax & _ & Hat). simpl in *.
  unfold index in Hbest. destruct (cs !! lc) as [c|] eqn:Hc; [|done].
  injection Hbest as ->.
  assert (na = GetNumHeavyAtoms best) as ->.
  { destruct Hat as [[= -> ->]|(c' & Hc' & Hn)]; [|congruence].
    pose proof (Hmax 0 best Hc). pose proof (GetNumHeavyAtoms_nonneg best). lia. }
  destruct (GetNumHeavyAtoms best <? GetNumHeavyAtoms x)%Z.
  - unfold index. by rewrite lookup_app_r, Nat.sub_diag.
  - unfold index. by rewrite lookup_app_l, Hc by by eapply lookup_lt_Some.
Qed.

Lemma get_largest_component_snoc_witness :
  get_largest_component ([butane; heptane] ++ [hexanol]) = Ok heptane.
Proof. exact (get_largest_component_snoc [butane; heptane] heptane hexanol eq_refl). Defined.

(** ** remove_salt_metals, what it keeps *)

Lemma salt_metals_heavy (z : Z) : z ∈ salt_metals → (1 < z)%Z.
Proof.
  unfold salt_metals. rewrite !elem_of_cons, elem_of_nil. lia.
Qed.

Lemma strippable_counts (mol : Mol) (l : list Atom) (i : nat) :
  length (filter (λ ia, ¬ strippable mol ia) (enumerate_from i l))
  + length (filter (strippable mol) (enumerate_from i l))
  = length l ∧
  length (filter (λ ia, (1 < GetAtomicNum ia.2)%Z)
            (filter (λ ia, ¬ strippable mol ia) (enumerate_from i l)))
  + length (filter (strippable mol) (enumerate_from i l))
  = length (filter (λ a, (1 < GetAtomicNum a)%Z) l).
Proof.
  revert i; induction l as [|a l IH]; intros i; [done|]. simpl.
  destruct (IH (S i)) as [IH1 IH2]. rewrite !filter_cons.
  destruct (decide (strippable mol (i, a))) as [Hs|Hs].
  - rewrite decide_False by tauto.
    rewrite decide_True by (apply salt_metals_heavy, Hs). simpl. lia.
  - rewrite decide_True by done. simpl. rewrite filter_cons. simpl.
    destruct (decide (1 < GetAtomicNum a)%Z); simpl; lia.
Qed.

(** X5. Stripping never raises and takes away exactly the collected
    atoms: the atom count and the heavy-atom count both go down by the
    number of collected indices, the atoms left are a sub-sequence of the
    input's, every atom that is not a salt metal is left, and the
    properties of the molecule are untouched. *)
Theorem remove_salt_metals_counts (mol : Mol) :
  ∃ stripped, remove_salt_metals mol = Ok stripped ∧
    length (GetAtoms stripped) + length (to_remove mol)
    = length (GetAtoms mol) ∧
    (GetNumHeavyAtoms stripped + Z.of_nat (length (to_remove mol))
     = GetNumHeavyAtoms mol)%Z ∧
    GetAtoms stripped `sublist_of` GetAtoms mol ∧
    (∀ a, a ∈ GetAtoms mol → GetAtomicNum a ∉ [3; 11; 12; 19; 20]%Z →
          a ∈ GetAtoms stripped) ∧
    GetProp stripped = GetProp mol.
Proof.
  destruct (remove_salt_metals_atoms mol) as (stripped & Hs & Hatoms & Hprops).
  exists stripped.
  destruct (strippable_counts mol (GetAtoms mol) 0) as [Hlen Hheavy].
  split_and!; try done.
  - rewrite Hatoms, to_remove_strippable, !length_fmap. apply Hlen.
  - unfold GetNumHeavyAtoms.
    rewrite Hatoms, to_remove_strippable, filter_fmap, !length_fmap.
    unfold enumerate. lia.
  - rewrite Hatoms. unfold enumerate.
    rewrite <- (enumerate_from_snd (GetAtoms mol) 0) at 2.
    apply fmap_sublist, sublist_filter.
  - intros a Ha Hsalt. rewrite Hatoms.
    apply list_elem_of_lookup in Ha as [i Hi].
    apply list_elem_of_fmap. exists (i, a). split; [done|].
    apply list_elem_of_filter. split; [|by apply enumerate_lookup].
    by intros [Hin _].
Qed.

(** X6. A salt-metal atom is left by the stripping only if it had more
    than one bond in the input; when every salt-metal atom of the input has
    at most one bond, no salt-metal atom is left. *)
Theorem remove_salt_metals_leaves_bonded (mol : Mol) :
  ∃ stripped, remove_salt_metals mol = Ok stripped ∧
    (∀ a, a ∈ GetAtoms stripped → GetAtomicNum a ∈ [3; 11; 12; 19; 20]%Z →
       ∃ idx, GetAtoms mol !! idx = Some a ∧ (1 < GetDegree mol idx)%Z) ∧
    ((∀ idx a, GetAtoms mol !! idx = Some a →
               GetAtomicNum a ∈ [3; 11; 12; 19; 20]%Z →
               (GetDegree mol idx ≤ 1)%Z) →
     ∀ a, a ∈ GetAtoms stripped → GetAtomicNum a ∉ [3; 11; 12; 19; 20]%Z).
Proof.
  destruct (remove_salt_metals_atoms mol) as (stripped & Hs & Hatoms & _).
  exists stripped. split; [done|].
  assert (Hleft : ∀ a, a ∈ GetAtoms stripped →
            GetAtomicNum a ∈ [3; 11; 12; 19; 20]%Z →
            ∃ idx, GetAtoms mol !! idx = Some a ∧ (1 < GetDegree mol idx)%Z).
  { intros a Ha Hsalt. rewrite Hatoms in Ha.
    apply list_elem_of_fmap in Ha as ([i a'] & -> & Hin).
    apply list_elem_of_filter in Hin as [Hn Hin%enumerate_lookup].
    exists i. split; [done|]. simpl in *.
    destruct (decide (1 < GetDegree mol i)%Z) as [|Hd]; [done|].
    destruct Hn. split; [done|simpl; lia]. }
  split; [done|]. intros Hfree a Ha Hsalt.
  destruct (Hleft a Ha Hsalt) as (idx & Hidx & Hdeg).
  specialize (Hfree idx a Hidx Hsalt). lia.
Qed.

Lemma remove_salt_metals_leaves_bonded_witness :
  ∃ stripped, remove_salt_metals sodium_acetate = Ok stripped ∧
    ∀ a, a ∈ GetAtoms stripped → GetAtomicNum a ∉ [3; 11; 12; 19; 20]%Z.
Proof.
  destruct (remove_salt_metals_leaves_bonded sodium_acetate)
    as (stripped & Hs & _ & Hnone).
  exists stripped. split; [exact Hs|]. apply Hnone.
  intros idx a Ha Hsalt.
  destruct idx as [|[|[|[|[|idx]]]]]; simpl in Ha; [..|discriminate];
    injection Ha as <-;
    first [ by vm_compute
          | exfalso; revert Hsalt; apply (bool_decide_eq_false_1 _); reflexivity ].
Defined.

(** ** remove_salt_metals, the bonds *)

Lemma shift_idx_lt (r x n : nat) : r < n → x < n → x ≠ r → shift_idx r x < pred n.
Proof. unfold shift_idx. intros. case_decide; lia. Qed.

Lemma without_atom_wf (mol : Mol) (r : nat) :
  r < length (GetAtoms mol) → wf_bonds mol → wf_bonds (without_atom r mol).
Proof.
  intros Hr Hwf b Hb. simpl in Hb.
  apply list_elem_of_fmap in Hb as ([x y] & -> & Hb).
  apply list_elem_of_filter in Hb as [Hnr Hb].
  apply incident_false in Hnr as [Hxr Hyr].
  destruct (Hwf (x, y) Hb) as (Hx & Hy & Hxy). simpl in *.
  rewrite length_delete by (by apply lookup_lt_is_Some).
  replace (length (GetAtoms mol) - 1) with (pred (length (GetAtoms mol))) by lia.
  split_and!; [by apply shift_idx_lt..|].
  by rewrite shift_idx_inj.
Qed.

Lemma without_atoms_wf (js : list nat) :
  StronglySorted (flip lt) js →
  ∀ mol, Forall (λ j, j < length (GetAtoms mol)) js → wf_bonds mol →
         wf_bonds (foldl (λ mol idx, without_atom idx mol) mol js).
Proof.
  induction 1 as [|r js Hs IH Hr]; intros mol Hjs Hwf; [done|].
  apply Forall_cons in Hjs as [Hlt Hjs]. simpl. apply IH.
  - rewrite Forall_forall in *. intros j Hj. specialize (Hr j Hj).
    unfold flip in Hr. simpl.
    rewrite length_delete by (by apply lookup_lt_is_Some). lia.
  - by apply without_atom_wf.
Qed.

(** X7. Stripping keeps the bonds well-formed: when every bond of the
    input joins two different atoms of the input, every bond of the
    stripped molecule joins two different atoms of the stripped molecule. *)
Theorem remove_salt_metals_wf (mol : Mol) :
  wf_bonds mol →
  ∃ stripped, remove_salt_metals mol = Ok stripped ∧ wf_bonds stripped.
Proof.
  intros Hwf. eexists. split; [apply remove_salt_metals_steps|].
  destruct (to_remove_descending mol) as [Hs Hr].
  by apply without_atoms_wf.
Qed.

Lemma remove_salt_metals_wf_witness :
  ∃ stripped, remove_salt_metals sodium_acetate = Ok stripped ∧ wf_bonds stripped.
Proof.
  apply remove_salt_metals_wf. intros b Hb. simpl in Hb.
  rewrite !elem_of_cons, elem_of_nil in Hb.
  destruct Hb as [->|[->|[->|[->|[]]]]]; simpl; lia.
Defined.

(** ** remove_duplicate_components, success and failure *)

Lemma for_each_app {A S} (body : S → A → exc S) (s : S) (l k : list A) :
  for_each body s (l ++ k) = s' ← for_each body s l; for_each body s' k.
Proof.
  revert s; induction l as [|x l IH]; intros s; [done|]. simpl.
  destruct (body s x); simpl; [apply IH|done].
Qed.

Lemma first_seen_id (key : Mol → string) (seen : list string) (l : list Mol) :
  NoDup (key <$> l) → (∀ x, x ∈ l → key x ∉ seen) →
  first_seen key seen l = l.
Proof.
  revert seen; induction l as [|x l IH]; intros seen Hnd Hseen; [done|].
  rewrite fmap_cons in Hnd. apply NoDup_cons in Hnd as [Hx Hnd]. simpl.
  rewrite bool_decide_eq_false_2 by (apply Hseen; by left).
  f_equal. apply IH; [done|]. intros y Hy. rewrite not_elem_of_cons. split.
  - intros E. apply Hx. rewrite <- E. apply list_elem_of_fmap. eauto.
  - apply Hseen. by right.
Qed.

Section further_deduplication.
Variable neutralise : Mol → exc Mol.
Variable UpdatePropertyCache : Mol → exc ().
Variable MolToInchi : Mol → string.
Variable InchiToInchiKey : string → string.

Local Abbreviation remove_duplicate_components' :=
  (remove_duplicate_components neutralise UpdatePropertyCache
     MolToInchi InchiToInchiKey).
Local Abbreviation neutral_forms' :=
  (neutral_forms UpdatePropertyCache neutralise).
Local Abbreviation key' := (λ n, InchiToInchiKey (MolToInchi n)).

Lemma neutral_forms_Forall2 (cs ns : list Mol) :
  neutral_forms' cs = Ok ns ↔
  Forall2 (λ c n, UpdatePropertyCache c = Ok () ∧ neutralise c = Ok n) cs ns.
Proof.
  revert ns; induction cs as [|c cs IH]; intros ns; simpl.
  - split.
    + intros [= <-]. constructor.
    + by intros ->%Forall2_nil_inv_l.
  - split.
    + destruct (UpdatePropertyCache c) as [[]|e] eqn:Hu; simpl; [|done].
      destruct (neutralise c) as [n|e] eqn:Hn; simpl; [|done].
      destruct (neutral_forms' cs) as [ns'|e]; simpl; [|done].
      intros [= <-]. constructor; [done|]. by apply IH.
    + intros (n & ns' & [Hu Hn] & Hrest & ->)%Forall2_cons_inv_l.
      rewrite Hu, Hn. simpl. apply IH in Hrest. by rewrite Hrest.
Qed.

Lemma neutral_forms_succeeds (cs : list Mol) :
  Forall (λ c, UpdatePropertyCache c = Ok () ∧ ∃ n, neutralise c = Ok n) cs →
  ∃ ns, neutral_forms' cs = Ok ns.
Proof.
  induction 1 as [|c cs [Hu [n Hn]] _ [ns IH]]; [by exists []|].
  exists (n :: ns). simpl. by rewrite Hu, Hn, IH.
Qed.

Lemma remove_duplicate_components_ok (cs r : list Mol) :
  remove_duplicate_components' cs = Ok r ↔
  ∃ ns, neutral_forms' cs = Ok ns ∧ r = first_seen key' [] ns.
Proof.
  split.
  - intros Hr. destruct (neutral_forms' cs) as [ns|e] eqn:Hns.
    + exists ns. split; [done|].
      unfold remove_duplicate_components in Hr.
      pose proof (remove_duplicate_components_loop neutralise
        UpdatePropertyCache MolToInchi InchiToInchiKey cs ns [] Hns) as Hloop.
      cbv zeta in Hloop.
      assert (Hr' : Ok (((λ n, (key' n, n)) <$> first_seen key' [] ns).*2) = Ok r).
      { rewrite <- Hr. symmetry.
        exact (f_equal (λ x, x ≫= λ inchi_keys, Ok inchi_keys.*2) Hloop). }
      injection Hr' as <-. rewrite <- list_fmap_compose.
      apply (list_fmap_id (first_seen key' [] ns)).
    + exfalso.
      assert (∃ c e', c ∈ cs ∧ (UpdatePropertyCache c = Raise e' ∨
                               neutralise c = Raise e')) as Hfail.
      { clear Hr. revert e Hns. induction cs as [|c cs IH]; intros e Hns;
          simpl in Hns; [done|].
        destruct (UpdatePropertyCache c) as [[]|e1] eqn:Hu; simpl in Hns.
        - destruct (neutralise c) as [n|e2] eqn:Hn; simpl in Hns.
          + destruct (neutral_forms' cs) as [ns|e3]; simpl in Hns; [done|].
            destruct (IH e3 eq_refl) as (c' & e' & Hin & He').
            exists c', e'. split; [by right|done].
          + exists c, e2. split; [by left|by right].
        - exists c, e1. split; [by left|by left]. }
      destruct Hfail as (c & e' & Hin & He').
      destruct (remove_duplicate_components_raises neutralise
        UpdatePropertyCache MolToInchi InchiToInchiKey cs) as [e'' He''];
        [by exists c, e'|]. congruence.
  - intros (ns & Hns & ->). unfold remove_duplicate_components.
    etrans; [exact (f_equal (λ x, x ≫= λ inchi_keys, Ok inchi_keys.*2)
                      (remove_duplicate_components_loop neutralise
                         UpdatePropertyCache MolToInchi InchiToInchiKey
                         cs ns [] Hns))|].
    simpl. f_equal. rewrite <- list_fmap_compose. apply list_fmap_id.
Qed.

Lemma remove_duplicate_components_origin (cs r : list Mol) :
  remove_duplicate_components' cs = Ok r →
  ∀ x, x ∈ r → ∃ c, c ∈ cs ∧ neutralise c = Ok x.
Proof.
  intros (ns & Hns & ->)%remove_duplicate_components_ok.
  apply neutral_forms_Forall2 in Hns.
  intros x [_ Hx]%first_seen_fresh.
  apply list_elem_of_lookup in Hx as [i Hi].
  destruct (Forall2_lookup_r _ _ _ _ _ Hns Hi) as (c & Hc & _ & Hn).
  exists c. split; [by eapply list_elem_of_lookup_2|done].
Qed.

End further_deduplication.

Section deduplication_properties.
Variable neutralise : Mol → exc Mol.
Variable UpdatePropertyCache : Mol → exc ().
Variable MolToInchi : Mol → string.
Variable InchiToInchiKey : string → string.

Local Abbreviation remove_duplicate_components' :=
  (remove_duplicate_components neutralise UpdatePropertyCache
     MolToInchi InchiToInchiKey).
Local Abbreviation neutral_forms' :=
  (neutral_forms UpdatePropertyCache neutralise).
Local Abbreviation key' := (λ n, InchiToInchiKey (MolToInchi n)).

(** X8. [remove_duplicate_components] returns a list exactly when
    [UpdatePropertyCache] and [neutralise] succeed on every component;
    otherwise it raises, and the exception is the one of the first
    component on which one of the two fails. *)
Theorem remove_duplicate_components_succeeds_iff (cs : list Mol) :
  ((∃ r, remove_duplicate_components' cs = Ok r) ↔
   Forall (λ c, UpdatePropertyCache c = Ok () ∧ ∃ n, neutralise c = Ok n) cs) ∧
  (∀ pre c rest e,
     cs = pre ++ c :: rest →
     Forall (λ c, UpdatePropertyCache c = Ok () ∧ ∃ n, neutralise c = Ok n) pre →
     UpdatePropertyCache c = Raise e ∨
     (UpdatePropertyCache c = Ok () ∧ neutralise c = Raise e) →
     remove_duplicate_components' cs = Raise e).
Proof.
  split.
  - split.
    + intros [r (ns & Hns & _)%remove_duplicate_components_ok].
      apply neutral_forms_Forall2 in Hns.
      induction Hns as [|c n cs ns [Hu Hn] _ IH]; constructor; eauto.
    + intros (ns & Hns)%neutral_forms_succeeds.
      exists (first_seen key' [] ns). apply remove_duplicate_components_ok. eauto.
  - intros pre c rest e -> Hpre Hfail.
    destruct (neutral_forms_succeeds _ _ pre Hpre) as [ns Hns].
    unfold remove_duplicate_components. rewrite for_each_app.
    pose proof (remove_duplicate_components_loop neutralise
      UpdatePropertyCache MolToInchi InchiToInchiKey pre ns [] Hns) as Hloop.
    cbv zeta in Hloop.
    match goal with
    | |- (for_each ?body ?s pre ≫= _) ≫= _ = _ =>
        assert (∃ acc, for_each body s pre = Ok acc) as [acc ->]
          by (eexists; exact Hloop)
    end.
    simpl. destruct Hfail as [Hu|[Hu Hn]].
    + by rewrite Hu.
    + by rewrite Hu, Hn.
Qed.

(** X9. What [remove_duplicate_components] returns is no longer than its
    input and not empty unless the input is; every component returned is
    the neutral form of a component of the input, and the first one
    returned is the neutral form of the first component of the input. *)
Theorem remove_duplicate_components_survivors (cs r : list Mol) :
  remove_duplicate_components' cs = Ok r →
  length r ≤ length cs ∧
  (cs ≠ [] → r ≠ []) ∧
  (∀ x, x ∈ r → ∃ c, c ∈ cs ∧ neutralise c = Ok x) ∧
  (∀ c, head cs = Some c → ∃ n, neutralise c = Ok n ∧ head r = Some n).
Proof.
  intros Hr.
  pose proof (remove_duplicate_components_origin neutralise
                UpdatePropertyCache MolToInchi InchiToInchiKey cs r Hr) as Horigin.
  apply remove_duplicate_components_ok in Hr as (ns & Hns & ->).
  apply neutral_forms_Forall2 in Hns.
  split_and!.
  - rewrite (Forall2_length _ _ _ Hns).
    apply sublist_length, first_seen_sublist.
  - intros Hne. by destruct Hns as [|c n cs ns [_ Hn] Hrest].
  - done.
  - intros c Hc. destruct Hns as [|c' n cs ns [_ Hn] Hrest]; [done|].
    injection Hc as ->. by exists n.
Qed.

(** X10. When the neutral forms of the components exist, nothing is lost
    exactly when their keys are pairwise different:
    [remove_duplicate_components] then returns all the neutral forms, in the
    order of the components. *)
Theorem remove_duplicate_components_distinct (cs ns : list Mol) :
  neutral_forms' cs = Ok ns →
  (remove_duplicate_components' cs = Ok ns ↔ NoDup (key' <$> ns)).
Proof.
  intros Hns. split.
  - intros (ns' & Hns' & Hr)%remove_duplicate_components_ok.
    rewrite Hns in Hns'. injection Hns' as <-. rewrite Hr.
    apply (first_seen_NoDup key').
  - intros Hnd. apply remove_duplicate_components_ok. exists ns.
    split; [done|]. symmetry. apply first_seen_id; [done|].
    intros x _. apply not_elem_of_nil.
Qed.

End deduplication_properties.

Lemma remove_duplicate_components_succeeds_iff_witness :
  remove_duplicate_components uncharged cache_updated rendering hashed
    [methane; molecule [0]%Z []; water]
  = Raise (LibraryError "Sanity_check").
Proof.
  apply (proj2 (remove_duplicate_components_succeeds_iff uncharged
           cache_updated rendering hashed [methane; molecule [0]%Z []; water])
           [methane] (molecule [0]%Z []) [water]).
  - reflexivity.
  - repeat constructor. by eexists.
  - right. by split.
Defined.

Lemma remove_duplicate_components_survivors_witness :
  length [acetic_acid] ≤ length [acetate; acetic_acid] ∧
  ([acetate; acetic_acid] ≠ [] → [acetic_acid] ≠ []) ∧
  (∀ x, x ∈ [acetic_acid] →
        ∃ c, c ∈ [acetate; acetic_acid] ∧ uncharged c = Ok x) ∧
  (∀ c, head [acetate; acetic_acid] = Some c →
        ∃ n, uncharged c = Ok n ∧ head [acetic_acid] = Some n).
Proof.
  exact (remove_duplicate_components_survivors uncharged cache_updated
           rendering hashed [acetate; acetic_acid] [acetic_acid] eq_refl).
Defined.

Lemma remove_duplicate_components_distinct_witness :
  remove_duplicate_components uncharged cache_updated rendering hashed
    [acetate; water]
  = Ok [acetic_acid; water].
Proof.
  apply (proj2 (remove_duplicate_components_distinct uncharged cache_updated
                  rendering hashed [acetate; water] [acetic_acid; water]
                  eq_refl)).
  vm_compute. repeat constructor; by apply (bool_decide_eq_false_1 _).
Defined.

(** ** The filtering passes and the re-attachment *)

(** X11. The filtering passes never raise; they keep, in order, exactly
    the components whose atoms are all allowed and of which one is a carbon
    or a silicon, and filtering the survivors again changes nothing. *)
Theorem filter_components_survivors (cs : list Mol) :
  ∃ survivors, filter_components cs = Ok survivors ∧
    survivors `sublist_of` cs ∧
    filter_components survivors = Ok survivors ∧
    ∀ c, c ∈ survivors ↔
      c ∈ cs ∧
      (∀ a, a ∈ GetAtoms c →
            GetAtomicNum a ∈ [1; 6; 7; 8; 9; 14; 15; 16; 17; 35; 53]%Z) ∧
      (∃ a, a ∈ GetAtoms c ∧ (GetAtomicNum a = 6%Z ∨ GetAtomicNum a = 14%Z)).
Proof.
  eexists. split; [apply filter_components_filter|]. split_and!.
  - etrans; apply sublist_filter.
  - rewrite filter_components_filter. f_equal.
    rewrite !list_filter_filter. apply list_filter_iff. intros c. tauto.
  - intros c. rewrite !list_elem_of_filter.
    pose proof (is_inorganic_true c) as Hi.
    pose proof (contains_metal_true c) as Hm. split.
    + intros (Hmf & Hif & Hc). split_and!; [done|..].
      * intros a Ha. apply dec_stable. intros Hout.
        apply not_true_iff_false in Hmf. apply Hmf, Hm. eauto.
      * apply not_true_iff_false in Hif. rewrite Hi in Hif.
        destruct (decide (Exists (λ a, GetAtomicNum a = 6%Z ∨ GetAtomicNum a = 14%Z)
                            (GetAtoms c))) as [Hex|Hno].
        -- by apply Exists_exists in Hex.
        -- destruct Hif. intros a Ha.
           split; intros E; apply Hno, Exists_exists; exists a; tauto.
    + intros (Hc & Hall & (a & Ha & E)). split_and!; [..|done].
      * apply not_true_iff_false. rewrite Hm. intros (b & Hb & Hout).
        by apply Hout, Hall.
      * apply not_true_iff_false. rewrite Hi. intros Hno.
        destruct (Hno a Ha). tauto.
Qed.

Lemma set_properties_shape (properties : gmap string PyVal) (mol : Mol) :
  set_properties properties mol
  = mkMol (GetAtoms mol) (GetBonds mol) ((str <$> properties) ∪ GetProp mol).
Proof.
  assert (Hfold : ∀ (l : list (string * PyVal)) m,
    foldl (λ mol '(prop, value), SetProp mol prop (str value)) m l
    = mkMol (GetAtoms m) (GetBonds m)
        (GetProp
           (foldl (λ mol '(prop, value), SetProp mol prop (str value)) m l))).
  { induction l as [|[p v] l IH]; intros m; [by destruct m|].
    simpl. rewrite IH at 1. done. }
  rewrite <- set_properties_props. unfold set_properties. apply Hfold.
Qed.

(** X12. Re-attaching properties changes nothing but properties: atoms
    and bonds, and with them the classification and the heavy-atom count,
    stay; a property of the component under a name that is not saved stays;
    and re-attaching the same properties once more changes nothing. *)
Theorem set_properties_frame (properties : gmap string PyVal) (mol : Mol) :
  GetAtoms (set_properties properties mol) = GetAtoms mol ∧
  GetBonds (set_properties properties mol) = GetBonds mol ∧
  is_inorganic (set_properties properties mol) = is_inorganic mol ∧
  contains_metal (set_properties properties mol) = contains_metal mol ∧
  GetNumHeavyAtoms (set_properties properties mol) = GetNumHeavyAtoms mol ∧
  (∀ prop, properties !! prop = None →
     GetProp (set_properties properties mol) !! prop
     = GetProp mol !! prop) ∧
  set_properties properties (set_properties properties mol)
  = set_properties properties mol.
Proof.
  rewrite !set_properties_shape. simpl. split_and!; try done.
  - intros prop Hnone. apply lookup_union_r. by rewrite lookup_fmap, Hnone.
  - f_equal. by rewrite (assoc_L (∪)), (idemp_L (∪)).
Qed.

(** ** standardise, path by path *)

Section standardise_properties.
Variable GetMolFrags : Mol → list Mol.
Variable neutralise : Mol → exc Mol.
Variable UpdatePropertyCache : Mol → exc ().
Variable MolToInchi : Mol → string.
Variable InchiToInchiKey : string → string.
Variable float_str : string → option string.

Local Abbreviation standardise' :=
  (standardise GetMolFrags neutralise UpdatePropertyCache
     MolToInchi InchiToInchiKey float_str).
Local Abbreviation GetPropsAsDict' := (GetPropsAsDict float_str).
Local Abbreviation remove_duplicate_components' :=
  (remove_duplicate_components neutralise UpdatePropertyCache
     MolToInchi InchiToInchiKey).
Local Abbreviation try_neutralise' := (try_neutralise neutralise UpdatePropertyCache).

Lemma try_neutralise_cases (mol : Mol) :
  (∃ r, try_neutralise' mol = Success r ∧
        UpdatePropertyCache mol = Ok () ∧ neutralise mol = Ok r) ∨
  try_neutralise' mol = Rejected NeutralizationFailed.
Proof.
  unfold try_neutralise.
  destruct (UpdatePropertyCache mol) as [[]|e]; simpl; [|by right].
  destruct (neutralise mol) as [r|e]; [left; eauto|by right].
Qed.

(** The multi-fragment path, once de-duplication has succeeded. *)
Lemma standardise_multi (mol stripped : Mol) (cs : list Mol) :
  remove_salt_metals mol = Ok stripped →
  1 < length (GetMolFrags stripped) →
  remove_duplicate_components' (GetMolFrags stripped) = Ok cs →
  let survivors :=
    filter (λ c, contains_metal c = false)
      (filter (λ c, is_inorganic c = false) cs) in
  (survivors = [] ∧ standardise' mol = Ok (Rejected OnlyMetalsOrInorganic)) ∨
  (∃ chosen, chosen ∈ survivors ∧
     standardise' mol
     = Ok (try_neutralise' (set_properties (GetPropsAsDict' stripped) chosen))).
Proof.
  intros Hs Hlen Hd survivors. unfold standardise. rewrite Hs. simpl.
  rewrite decide_True by done. rewrite Hd, filter_components_filter. simpl.
  fold survivors.
  destruct (choose_component_total survivors) as ([o|chosen] & -> & Hshape);
    simpl.
  - destruct Hshape as [-> ->]. by left.
  - right. by exists chosen.
Qed.

(** X13. A salt-metal atom with more than one bond is left by the
    stripping, and the stripped molecule then contains a disallowed atom;
    if it is not split into several fragments, the outcome is the
    rejection ContainsMetal. *)
Theorem bonded_salt_metal_rejected (mol : Mol) (idx : nat) (a : Atom) :
  GetAtoms mol !! idx = Some a →
  GetAtomicNum a ∈ [3; 11; 12; 19; 20]%Z →
  (1 < GetDegree mol idx)%Z →
  ∃ stripped, remove_salt_metals mol = Ok stripped ∧
    a ∈ GetAtoms stripped ∧
    contains_metal stripped = true ∧
    (¬ 1 < length (GetMolFrags stripped) →
     standardise' mol = Ok (Rejected ContainsMetal)).
Proof.
  intros Ha Hsalt Hdeg.
  destruct (remove_salt_metals_atoms mol) as (stripped & Hs & Hatoms & _).
  exists stripped.
  assert (Hin : a ∈ GetAtoms stripped).
  { rewrite Hatoms. apply list_elem_of_fmap. exists (idx, a). split; [done|].
    apply list_elem_of_filter. split; [|by apply enumerate_lookup].
    intros [_ Hd]. simpl in Hd. lia. }
  assert (Hm : contains_metal stripped = true).
  { apply contains_metal_true. exists a. split; [done|].
    intros Hall. unfold allowed_atoms in Hall.
    rewrite !elem_of_cons, elem_of_nil in Hsalt.
    rewrite !elem_of_cons, elem_of_nil in Hall. lia. }
  split_and!; try done.
  intros Hlen. unfold standardise. rewrite Hs. simpl.
  rewrite decide_False by done. by rewrite Hm.
Qed.

(** X14. In the multi-fragment path, once de-duplication has succeeded,
    the outcome is the rejection OnlyMetalsOrInorganic exactly when every
    de-duplicated fragment is inorganic or contains a disallowed atom. *)
Theorem all_fragments_filtered (mol stripped : Mol) (cs : list Mol) :
  remove_salt_metals mol = Ok stripped →
  1 < length (GetMolFrags stripped) →
  remove_duplicate_components' (GetMolFrags stripped) = Ok cs →
  (standardise' mol = Ok (Rejected OnlyMetalsOrInorganic) ↔
   ∀ c, c ∈ cs → is_inorganic c = true ∨ contains_metal c = true).
Proof.
  intros Hs Hlen Hd.
  destruct (standardise_multi mol stripped cs Hs Hlen Hd)
    as [[Hnil ->]|(chosen & Hin & ->)].
  - split; [|done]. intros _ c Hc.
    destruct (is_inorganic c) eqn:Hi; [by left|].
    destruct (contains_metal c) eqn:Hm; [by right|].
    assert (c ∈ filter (λ c, contains_metal c = false)
                  (filter (λ c, is_inorganic c = false) cs)) as Hcin.
    { by rewrite !list_elem_of_filter. }
    rewrite Hnil in Hcin. by apply elem_of_nil in Hcin.
  - split.
    + intros [= Ho].
      destruct (try_neutralise_cases
                  (set_properties (GetPropsAsDict' stripped) chosen))
        as [(r & Hr & _)|Hr]; congruence.
    + intros Hall. apply list_elem_of_filter in Hin as [Hm Hin].
      apply list_elem_of_filter in Hin as [Hi Hin].
      destruct (Hall chosen Hin); congruence.
Qed.

(** X15. A success of the multi-fragment path returns what [neutralise]
    makes of a fragment that is itself a neutral form: some fragment of
    the stripped molecule was neutralised during de-duplication, its
    neutral form is neither inorganic nor metal-containing, and the
    neutraliser ran a second time on this neutral form with the saved
    properties re-attached. *)
Theorem multi_fragment_success (mol stripped result : Mol) :
  remove_salt_metals mol = Ok stripped →
  1 < length (GetMolFrags stripped) →
  standardise' mol = Ok (Success result) →
  ∃ frag neutral,
    frag ∈ GetMolFrags stripped ∧
    neutralise frag = Ok neutral ∧
    is_inorganic neutral = false ∧ contains_metal neutral = false ∧
    neutralise (set_properties (GetPropsAsDict' stripped) neutral) = Ok result.
Proof.
  intros Hs Hlen Hok.
  destruct (remove_duplicate_components' (GetMolFrags stripped)) as [cs|e] eqn:Hd.
  - destruct (standardise_multi mol stripped cs Hs Hlen Hd)
      as [[_ Hrej]|(chosen & Hin & Hrun)]; [congruence|].
    rewrite Hrun in Hok. injection Hok as Hok.
    destruct (try_neutralise_cases
                (set_properties (GetPropsAsDict' stripped) chosen))
      as [(r & Hr & _ & Hn)|Hr]; [|congruence].
    rewrite Hr in Hok. injection Hok as ->.
    apply list_elem_of_filter in Hin as [Hm Hin].
    apply list_elem_of_filter in Hin as [Hi Hin].
    destruct (remove_duplicate_components_origin neutralise
                UpdatePropertyCache MolToInchi InchiToInchiKey _ _ Hd
                chosen Hin) as (frag & Hfrag & Hneutral).
    by exists frag, chosen.
  - unfold standardise in Hok. rewrite Hs in Hok. simpl in Hok.
    rewrite decide_True in Hok by done. by rewrite Hd in Hok.
Qed.

(** X16. Whatever the path, a success comes from a molecule that the
    closing step could neutralise and that has only allowed atoms, one of
    them a carbon or a silicon. *)
Theorem success_is_organic (mol result : Mol) :
  standardise' mol = Ok (Success result) →
  ∃ chosen,
    UpdatePropertyCache chosen = Ok () ∧ neutralise chosen = Ok result ∧
    (∀ a, a ∈ GetAtoms chosen →
          GetAtomicNum a ∈ [1; 6; 7; 8; 9; 14; 15; 16; 17; 35; 53]%Z) ∧
    (∃ a, a ∈ GetAtoms chosen ∧ (GetAtomicNum a = 6%Z ∨ GetAtomicNum a = 14%Z)).
Proof.
  intros Hok.
  assert (Hclass : ∀ chosen,
    contains_metal chosen = false → is_inorganic chosen = false →
    (∀ a, a ∈ GetAtoms chosen →
          GetAtomicNum a ∈ [1; 6; 7; 8; 9; 14; 15; 16; 17; 35; 53]%Z) ∧
    (∃ a, a ∈ GetAtoms chosen ∧ (GetAtomicNum a = 6%Z ∨ GetAtomicNum a = 14%Z))).
  { intros chosen Hm Hi. split.
    - intros a Ha. apply dec_stable. intros Hout.
      apply not_true_iff_false in Hm. apply Hm, contains_metal_true. eauto.
    - apply not_true_iff_false in Hi. rewrite is_inorganic_true in Hi.
      destruct (decide (Exists (λ a, GetAtomicNum a = 6%Z ∨ GetAtomicNum a = 14%Z)
                          (GetAtoms chosen))) as [Hex|Hno].
      + by apply Exists_exists in Hex.
      + destruct Hi. intros a Ha.
        split; intros E; apply Hno, Exists_exists; exists a; tauto. }
  destruct (remove_salt_metals_atoms mol) as (stripped & Hs & _).
  destruct (decide (1 < length (GetMolFrags stripped))) as [Hlen|Hlen].
  - destruct (remove_duplicate_components' (GetMolFrags stripped))
      as [cs|e] eqn:Hd.
    + destruct (standardise_multi mol stripped cs Hs Hlen Hd)
        as [[_ Hrej]|(chosen & Hin & Hrun)]; [congruence|].
      rewrite Hrun in Hok. injection Hok as Hok.
      destruct (try_neutralise_cases
                  (set_properties (GetPropsAsDict' stripped) chosen))
        as [(r & Hr & Hu & Hn)|Hr]; [|congruence].
      rewrite Hr in Hok. injection Hok as ->.
      apply list_elem_of_filter in Hin as [Hm Hin].
      apply list_elem_of_filter in Hin as [Hi Hin].
      exists (set_properties (GetPropsAsDict' stripped) chosen).
      split_and!; [done..| |]; rewrite set_properties_shape; simpl;
        by apply Hclass.
    + unfold standardise in Hok. rewrite Hs in Hok. simpl in Hok.
      rewrite decide_True in Hok by done. by rewrite Hd in Hok.
  - unfold standardise in Hok. rewrite Hs in Hok. simpl in Hok.
    rewrite decide_False in Hok by done.
    destruct (contains_metal stripped) eqn:Hm; [done|].
    destruct (is_inorganic stripped) eqn:Hi; [done|].
    injection Hok as Hok.
    destruct (try_neutralise_cases stripped) as [(r & Hr & Hu & Hn)|Hr];
      [|congruence].
    rewrite Hr in Hok. injection Hok as ->.
    exists stripped. split_and!; [done..| |]; by apply Hclass.
Qed.

(** X17. The single-fragment path succeeds on the stripped molecule
    itself: when the stripped molecule is not split, has only allowed
    atoms, one of them a carbon or a silicon, and can be neutralised, the
    outcome is the success with its neutral form. *)
Theorem single_fragment_success (mol stripped result : Mol) :
  remove_salt_metals mol = Ok stripped →
  ¬ 1 < length (GetMolFrags stripped) →
  (∀ a, a ∈ GetAtoms stripped →
        GetAtomicNum a ∈ [1; 6; 7; 8; 9; 14; 15; 16; 17; 35; 53]%Z) →
  (∃ a, a ∈ GetAtoms stripped ∧ (GetAtomicNum a = 6%Z ∨ GetAtomicNum a = 14%Z)) →
  UpdatePropertyCache stripped = Ok () →
  neutralise stripped = Ok result →
  standardise' mol = Ok (Success result).
Proof.
  intros Hs Hlen Hall (a & Ha & E) Hu Hn.
  unfold standardise. rewrite Hs. simpl. rewrite decide_False by done.
  destruct (contains_metal stripped) eqn:Hm.
  { apply contains_metal_true in Hm as (b & Hb & Hout). destruct Hout.
    by apply Hall. }
  destruct (is_inorganic stripped) eqn:Hi.
  { rewrite is_inorganic_true in Hi. destruct (Hi a Ha). tauto. }
  unfold try_neutralise. by rewrite Hu, Hn.
Qed.

(** X18. A molecule without atoms is left as it is by the stripping and,
    when it is not split into several fragments, rejected as Inorganic. *)
Theorem empty_molecule_inorganic (mol : Mol) :
  GetAtoms mol = [] →
  remove_salt_metals mol = Ok mol ∧
  (¬ 1 < length (GetMolFrags mol) →
   standardise' mol = Ok (Rejected Inorganic)).
Proof.
  intros Hempty.
  assert (Hs : remove_salt_metals mol = Ok mol).
  { unfold remove_salt_metals, to_remove. by rewrite Hempty. }
  split; [done|]. intros Hlen.
  unfold standardise. rewrite Hs. simpl. rewrite decide_False by done.
  unfold contains_metal, is_inorganic. by rewrite Hempty.
Qed.

(** X19. The reason of a rejection tells the path: ContainsMetal and
    Inorganic are never the outcome when the stripped molecule is split
    into several fragments, and OnlyMetalsOrInorganic is never the outcome
    when it is not. *)
Theorem rejection_reason_by_path (mol stripped : Mol) (o : Outcome) :
  remove_salt_metals mol = Ok stripped →
  standardise' mol = Ok o →
  (1 < length (GetMolFrags stripped) →
   o ≠ Rejected ContainsMetal ∧ o ≠ Rejected Inorganic) ∧
  (¬ 1 < length (GetMolFrags stripped) →
   o ≠ Rejected OnlyMetalsOrInorganic).
Proof.
  intros Hs Hok. split; intros Hlen.
  - destruct (remove_duplicate_components' (GetMolFrags stripped))
      as [cs|e] eqn:Hd.
    + destruct (standardise_multi mol stripped cs Hs Hlen Hd)
        as [[_ Hrej]|(chosen & Hin & Hrun)].
      * rewrite Hrej in Hok. by injection Hok as <-.
      * rewrite Hrun in Hok. injection Hok as <-.
        destruct (try_neutralise_cases
                    (set_properties (GetPropsAsDict' stripped) chosen))
          as [(r & -> & _)| ->]; done.
    + unfold standardise in Hok. rewrite Hs in Hok. simpl in Hok.
      rewrite decide_True in Hok by done. rewrite Hd in Hok.
      by injection Hok as <-.
  - unfold standardise in Hok. rewrite Hs in Hok. simpl in Hok.
    rewrite decide_False in Hok by done.
    destruct (contains_metal stripped); [by injection Hok as <-|].
    destruct (is_inorganic stripped); [by injection Hok as <-|].
    injection Hok as <-.
    destruct (try_neutralise_cases stripped) as [(r & -> & _)| ->]; done.
Qed.

End standardise_properties.

(** ** The paths of standardise on the reference collaborators *)

Lemma bonded_salt_metal_rejected_witness :
  standardise split_fragments uncharged cache_updated rendering hashed no_double
    dimethylmagnesium
  = Ok (Rejected ContainsMetal).
Proof.
  destruct (bonded_salt_metal_rejected split_fragments uncharged cache_updated
              rendering hashed no_double dimethylmagnesium 1 (mkAtom 12 0))
    as (stripped & Hs & _ & _ & Hrej).
  - reflexivity.
  - do 2 right. left.
  - reflexivity.
  - change (Ok dimethylmagnesium = Ok stripped) in Hs. injection Hs as <-.
    apply Hrej. vm_compute. lia.
Defined.

Lemma all_fragments_filtered_witness :
  standardise split_fragments uncharged cache_updated rendering hashed no_double
    two_waters
  = Ok (Rejected OnlyMetalsOrInorganic).
Proof.
  apply (proj2 (all_fragments_filtered split_fragments uncharged cache_updated
                  rendering hashed no_double two_waters two_waters [water]
                  eq_refl ltac:(vm_compute; lia) eq_refl)).
  intros c ->%list_elem_of_singleton. by left.
Defined.

Lemma multi_fragment_success_witness :
  ∃ frag neutral,
    frag ∈ split_fragments butane_and_chloride ∧
    uncharged frag = Ok neutral ∧
    is_inorganic neutral = false ∧ contains_metal neutral = false ∧
    uncharged (set_properties (GetPropsAsDict no_double butane_and_chloride)
                 neutral)
    = Ok (mkMol (GetAtoms butane) (GetBonds butane) {[ "ID" := "9" ]}).
Proof.
  apply (multi_fragment_success split_fragments uncharged cache_updated
           rendering hashed no_double butane_and_chloride butane_and_chloride).
  - reflexivity.
  - vm_compute. lia.
  - vm_compute. reflexivity.
Defined.

Lemma success_is_organic_witness :
  ∃ chosen,
    cache_updated chosen = Ok () ∧
    uncharged chosen
    = Ok (mkMol (GetAtoms butane) (GetBonds butane) {[ "ID" := "9" ]}) ∧
    (∀ a, a ∈ GetAtoms chosen →
          GetAtomicNum a ∈ [1; 6; 7; 8; 9; 14; 15; 16; 17; 35; 53]%Z) ∧
    (∃ a, a ∈ GetAtoms chosen ∧ (GetAtomicNum a = 6%Z ∨ GetAtomicNum a = 14%Z)).
Proof.
  apply (success_is_organic split_fragments uncharged cache_updated
           rendering hashed no_double butane_and_chloride).
  vm_compute. reflexivity.
Defined.

Lemma single_fragment_success_witness :
  standardise split_fragments uncharged cache_updated rendering hashed no_double
    sodium_acetate
  = Ok (Success (mkMol (GetAtoms acetic_acid) (GetBonds acetic_acid)
                       {[ "ID" := "7" ]})).
Proof.
  apply (single_fragment_success split_fragments uncharged cache_updated
           rendering hashed no_double sodium_acetate
           (mkMol (GetAtoms acetic_acid) (GetBonds acetic_acid)
                  {[ "ID" := "7" ]})).
  - reflexivity.
  - vm_compute. lia.
  - intros a Ha. simpl in Ha. rewrite !elem_of_cons, elem_of_nil in Ha.
    destruct Ha as [->|[->|[->|[->|[]]]]]; simpl;
      repeat (first [by left | right]).
  - exists (mkAtom 6 0). split; [by left|by left].
  - reflexivity.
  - reflexivity.
Defined.

Lemma empty_molecule_inorganic_witness :
  standardise split_fragments uncharged cache_updated rendering hashed no_double
    empty_molecule
  = Ok (Rejected Inorganic).
Proof.
  apply (proj2 (empty_molecule_inorganic split_fragments uncharged
                  cache_updated rendering hashed no_double empty_molecule eq_refl)).
  vm_compute. lia.
Defined.

Lemma rejection_reason_by_path_witness :
  Rejected OnlyMetalsOrInorganic ≠ Rejected ContainsMetal ∧
  Rejected OnlyMetalsOrInorganic ≠ Rejected Inorganic.
Proof.
  apply (proj1 (rejection_reason_by_path split_fragments uncharged
                  cache_updated rendering hashed no_double iron_and_water iron_and_water
                  (Rejected OnlyMetalsOrInorganic) eq_refl eq_refl)).
  vm_compute. lia.
Defined.

(** ** The values of the re-attached properties *)

Section reattachment.
Variable GetMolFrags : Mol → list Mol.
Variable neutralise : Mol → exc Mol.
Variable UpdatePropertyCache : Mol → exc ().
Variable MolToInchi : Mol → string.
Variable InchiToInchiKey : string → string.
Variable float_str : string → option string.

Local Abbreviation standardise' :=
  (standardise GetMolFrags neutralise UpdatePropertyCache
     MolToInchi InchiToInchiKey float_str).


End reattachment.

